(** * logx: a shallow embedding of the asynchronous log sink, the level
    filter, the writer registry and the two encoders.

    Go strings and byte slices are sequences of 8-bit bytes: they are
    modelled by [string] (a list of [ascii]).  An [error] is [None] for a
    nil error and [Some msg] for an error whose message is [msg]. *)

From Stdlib Require Import List String Ascii Bool Arith NArith ZArith Lia.
From Stdlib Require Import DecimalString.
Import ListNotations.

Local Open Scope list_scope.

Definition error : Type := option string.

Definition nil_error : error := None.

(** ** default_logger.go: the asynchronous file sink *)

Module Sink.

(** What the sink does to its [*os.File], in order. *)
Inductive FileOp : Type :=
| OpWrite (v : string)
| OpSync
| OpClose.

(** The file handle.  [f_sync_err] and [f_close_err] are what the operating
    system answers to [Sync] and [Close]; [f_ops] records the calls made on
    the handle.  [fp.Write] is taken to accept every write: the source
    discards its result in any case. *)
Record File : Type := mkFile {
  f_sync_err : error;
  f_close_err : error;
  f_ops : list FileOp
}.

Definition file_do (op : FileOp) (f : File) : File :=
  mkFile (f_sync_err f) (f_close_err f) (f_ops f ++ [op]).

(** The bytes that reached the file, in order. *)
Fixpoint written (ops : list FileOp) : list string :=
  match ops with
  | [] => []
  | OpWrite v :: r => v :: written r
  | _ :: r => written r
  end.

(** [sync.Once]: not entered, running its function, or finished. *)
Inductive Once : Type := OnceIdle | OnceRunning | OnceDone.

(** [DefaultLogger].  [channel] is the buffered [chan []byte] in FIFO order
    (head = next item received); [done] tells whether the [done] channel has
    been closed; [waitGroup] is the counter of the [sync.WaitGroup], which
    only the worker goroutine holds: it is 1 while the worker runs and 0
    once it has returned. *)
Record DefaultLogger : Type := mkLogger {
  filename : string;
  fp : option File;
  channel : list string;
  done : bool;
  waitGroup : nat;
  closeOnce : Once
}.

(** The sink together with the process-wide standard logger ([log.Println]),
    the diagnostic fallback stream. *)
Record St : Type := mkSt {
  lg : DefaultLogger;
  stdlog : list string
}.

Definition bufferSize : nat := 100.

Definition ErrLogFileClosed : error := Some "error: log file closed"%string.

(** [Sync] on a nil file pointer answers [os.ErrInvalid]. *)
Definition ErrInvalid : error := Some "invalid argument"%string.

Definition set_fp (f : option File) (l : DefaultLogger) : DefaultLogger :=
  mkLogger (filename l) f (channel l) (done l) (waitGroup l) (closeOnce l).

Definition set_channel (c : list string) (l : DefaultLogger) : DefaultLogger :=
  mkLogger (filename l) (fp l) c (done l) (waitGroup l) (closeOnce l).

Definition set_done (b : bool) (l : DefaultLogger) : DefaultLogger :=
  mkLogger (filename l) (fp l) (channel l) b (waitGroup l) (closeOnce l).

Definition set_waitGroup (n : nat) (l : DefaultLogger) : DefaultLogger :=
  mkLogger (filename l) (fp l) (channel l) (done l) n (closeOnce l).

Definition set_closeOnce (o : Once) (l : DefaultLogger) : DefaultLogger :=
  mkLogger (filename l) (fp l) (channel l) (done l) (waitGroup l) o.

Definition with_lg (f : DefaultLogger -> DefaultLogger) (s : St) : St :=
  mkSt (f (lg s)) (stdlog s).

(** [log.Println(string(data))] *)
Definition log_Println (line : string) (s : St) : St :=
  mkSt (lg s) (stdlog s ++ [line]).

(** A [select] with two cases chooses one of the cases that can proceed; when
    both can, Go picks one of them at random.  [Pick] names the case taken, in
    source order. *)
Inductive Pick : Type := PickFirst | PickSecond.

(** [init] and [NewLogger].  The outcome of the Stat/MkdirAll/Create/OpenFile
    sequence of [init] belongs to the file system and is an argument. *)
Definition init (opened : File + string) (l : DefaultLogger)
  : DefaultLogger * error :=
  match opened with
  | inl f => (set_fp (Some f) l, nil_error)
  | inr e => (l, Some e)
  end.

Definition startWorker (l : DefaultLogger) : DefaultLogger :=
  set_waitGroup (waitGroup l + 1) l.

Definition NewLogger (name : string) (opened : File + string)
  : option DefaultLogger * error :=
  let l := mkLogger name None [] false 0 OnceIdle in
  match init opened l with
  | (l', None) => (Some (startWorker l'), nil_error)
  | (_, Some e) => (None, Some e)
  end.

(** [l.write(v)] *)
Definition write (v : string) (l : DefaultLogger) : DefaultLogger :=
  match fp l with
  | Some f => set_fp (Some (file_do (OpWrite v) f)) l
  | None => l
  end.

(** [Write]: [select { case l.channel <- data: ...; case <-l.done: ... }].
    The send can proceed when the buffer has room, the receive from [done]
    once [done] is closed.  [None]: the case picked cannot proceed. *)
Definition Write (p : Pick) (data : string) (s : St) : option (St * (nat * error)) :=
  match p with
  | PickFirst =>
      if List.length (channel (lg s)) <? bufferSize
      then Some (with_lg (set_channel (channel (lg s) ++ [data])) s,
                 (String.length data, nil_error))
      else None
  | PickSecond =>
      if done (lg s)
      then Some (log_Println data s, (0, ErrLogFileClosed))
      else None
  end.

(** One iteration of the worker's [for { select { ... } }]; the second case
    returns, which runs the deferred [waitGroup.Done()]. *)
Definition worker_iter (p : Pick) (l : DefaultLogger) : option DefaultLogger :=
  match waitGroup l with
  | 0 => None
  | S n =>
      match p with
      | PickFirst =>
          match channel l with
          | event :: rest => Some (write event (set_channel rest l))
          | [] => None
          end
      | PickSecond =>
          if done l then Some (set_waitGroup n l) else None
      end
  end.

(** [Close], first caller, up to [l.waitGroup.Wait()]: enters the Once and
    closes [done]. *)
Definition Close_signal (l : DefaultLogger) : option DefaultLogger :=
  match closeOnce l with
  | OnceIdle => Some (set_done true (set_closeOnce OnceRunning l))
  | _ => None
  end.

(** [Sync] then [Close] on the handle, as in the function given to the Once:
    a failing [Sync] returns early. *)
Definition sync_and_close (f : option File) : option File * error :=
  match f with
  | None => (None, ErrInvalid)
  | Some f0 =>
      let f1 := file_do OpSync f0 in
      match f_sync_err f1 with
      | Some e => (Some f1, Some e)
      | None => (Some (file_do OpClose f1), f_close_err f1)
      end
  end.

(** [Close], first caller, from the return of [Wait] (the counter is 0) to the
    end. *)
Definition Close_finish (l : DefaultLogger) : option (DefaultLogger * error) :=
  match closeOnce l, waitGroup l with
  | OnceRunning, 0 =>
      let (f, err) := sync_and_close (fp l) in
      Some (set_closeOnce OnceDone (set_fp f l), err)
  | _, _ => None
  end.

(** [Close], any later caller: the Once does not run the function again and
    the caller's own [err] is still nil. *)
Definition Close_again (l : DefaultLogger) : option (DefaultLogger * error) :=
  match closeOnce l with
  | OnceDone => Some (l, nil_error)
  | _ => None
  end.

(** The worker between the closing of [done] and its return: it takes [k]
    more items from the channel, then the [done] case. *)
Fixpoint worker_finish (k : nat) (l : DefaultLogger) : option DefaultLogger :=
  match k with
  | 0 => worker_iter PickSecond l
  | S k' =>
      match worker_iter PickFirst l with
      | Some l' => worker_finish k' l'
      | None => None
      end
  end.

(** A whole [Close] call with no other goroutine but the worker running
    meanwhile; [k] is the worker's schedule (see [worker_finish]). *)
Definition Close (k : nat) (l : DefaultLogger) : option (DefaultLogger * error) :=
  match closeOnce l with
  | OnceIdle =>
      match Close_signal l with
      | Some l1 =>
          match (match waitGroup l1 with
                 | 0 => Some l1
                 | S _ => worker_finish k l1
                 end) with
          | Some l2 => Close_finish l2
          | None => None
          end
      | None => None
      end
  | _ => Close_again l
  end.

(** [Close] called again and again; each call has its own worker schedule
    (which only the first call uses). *)
Fixpoint Close_all (ks : list nat) (l : DefaultLogger)
  : option (DefaultLogger * list error) :=
  match ks with
  | [] => Some (l, [])
  | k :: ks' =>
      match Close k l with
      | Some (l1, e) =>
          match Close_all ks' l1 with
          | Some (l2, es) => Some (l2, e :: es)
          | None => None
          end
      | None => None
      end
  end.

(** Steps of the whole system: producers, worker and closers interleaved. *)
Inductive Event : Type :=
| EWrite (p : Pick) (data : string)
| EWorker (p : Pick)
| ECloseSignal
| ECloseFinish
| ECloseAgain.

Inductive Result : Type :=
| RWrite (n : nat) (e : error)
| RClose (e : error)
| RNone.

Definition lift_lg (s : St) (r : option DefaultLogger) : option (St * Result) :=
  match r with
  | Some l => Some (mkSt l (stdlog s), RNone)
  | None => None
  end.

Definition lift_close (s : St) (r : option (DefaultLogger * error))
  : option (St * Result) :=
  match r with
  | Some (l, e) => Some (mkSt l (stdlog s), RClose e)
  | None => None
  end.

Definition step (ev : Event) (s : St) : option (St * Result) :=
  match ev with
  | EWrite p data =>
      match Write p data s with
      | Some (s', (n, e)) => Some (s', RWrite n e)
      | None => None
      end
  | EWorker p => lift_lg s (worker_iter p (lg s))
  | ECloseSignal => lift_lg s (Close_signal (lg s))
  | ECloseFinish => lift_close s (Close_finish (lg s))
  | ECloseAgain => lift_close s (Close_again (lg s))
  end.

Fixpoint run (evs : list Event) (s : St) : option (St * list Result) :=
  match evs with
  | [] => Some (s, [])
  | ev :: evs' =>
      match step ev s with
      | Some (s1, r) =>
          match run evs' s1 with
          | Some (s2, rs) => Some (s2, r :: rs)
          | None => None
          end
      | None => None
      end
  end.

(** The bytes in the file behind the sink. *)
Definition file_contents (l : DefaultLogger) : list string :=
  match fp l with
  | Some f => written (f_ops f)
  | None => []
  end.

(** A sink as [NewLogger] returns it over a handle that syncs and closes
    with the given answers. *)
Definition fresh_file (se ce : error) : File := mkFile se ce [].

Definition fresh (se ce : error) : DefaultLogger :=
  match NewLogger "logs/logx.log"%string (inl (fresh_file se ce)) with
  | (Some l, _) => l
  | (None, _) => mkLogger ""%string None [] false 0 OnceIdle
  end.

(** What the first [Close] returns: the error of [Sync], else that of
    [Close] on the handle. *)
Definition first_close_result (f : File) : error :=
  match f_sync_err f with
  | Some e => Some e
  | None => f_close_err f
  end.

(** What the first [Close] does to the handle after the worker's writes. *)
Definition close_ops (f : File) : list FileOp :=
  match f_sync_err f with
  | Some _ => [OpSync]
  | None => [OpSync; OpClose]
  end.

(** How often a run enters the shutdown sequence ([ECloseSignal]: [done] is
    closed) and how often it completes it ([ECloseFinish]: sync and close of
    the handle). *)
Fixpoint count_signal (evs : list Event) : nat :=
  match evs with
  | [] => 0
  | ECloseSignal :: r => S (count_signal r)
  | _ :: r => count_signal r
  end.

Fixpoint count_finish (evs : list Event) : nat :=
  match evs with
  | [] => 0
  | ECloseFinish :: r => S (count_finish r)
  | _ :: r => count_finish r
  end.

(** The results of the [Close] calls that found the Once already done. *)
Fixpoint later_closes (evs : list Event) (rs : list Result) : list Result :=
  match evs, rs with
  | ECloseAgain :: evs', r :: rs' => r :: later_closes evs' rs'
  | _ :: evs', _ :: rs' => later_closes evs' rs'
  | _, _ => []
  end.

(** The byte sequences of a run's [Write] calls that returned a nil error,
    and of those that returned an error, in call order. *)
Fixpoint accepted (evs : list Event) (rs : list Result) : list string :=
  match evs, rs with
  | EWrite _ d :: evs', RWrite _ None :: rs' => d :: accepted evs' rs'
  | _ :: evs', _ :: rs' => accepted evs' rs'
  | _, _ => []
  end.

Fixpoint rejected (evs : list Event) (rs : list Result) : list string :=
  match evs, rs with
  | EWrite _ d :: evs', RWrite _ (Some _) :: rs' => d :: rejected evs' rs'
  | _ :: evs', _ :: rs' => rejected evs' rs'
  | _, _ => []
  end.

End Sink.

(** ** Values behind [interface{}]

    A payload is a Go value of some dynamic type.  What the encoders can
    observe of it is: whether the dynamic type is [string] (a type without
    methods, so neither an [error] nor a [fmt.Stringer]); otherwise what
    [Error()] answers when the type implements [error], what [String()]
    answers when it implements [fmt.Stringer], and what [json.Marshal] makes
    of it, the JSON text or an error message. *)
Inductive Value : Type :=
| VString (s : string)
| VOther (err : option string) (str : option string) (js : string + string).

(** ** encoding/json and unicode/utf8, as far as log entries use them

    The encoders call [json.Marshal] and [json.Encoder.Encode] of the Go
    standard library, and the tests read the output back with
    [json.Unmarshal].  This module follows the library's string encoding
    ([appendString] with HTML escaping, which [Marshal] turns on), its string
    decoding ([unquote]) and the UTF-8 routines both rely on.  Control
    bytes other than newline, carriage return and tab are written as
    backslash-u escapes (recent releases shorten backspace and form feed;
    the decoder reads both forms).  The decoder reads the compact form
    [Marshal] writes: objects whose values are strings, no white space
    except after the object. *)

Module Json.

Local Open Scope N_scope.

Definition code (c : ascii) : N := N_of_ascii c.

Definition chr (n : N) : ascii := ascii_of_N n.

Definition RuneError : N := 0xFFFD.

Definition RuneSelf : N := 0x80.

Definition between (lo hi : N) (c : ascii) : bool :=
  (lo <=? code c) && (code c <=? hi).

(** Payload of a continuation byte, 6 bits. *)
Definition low6 (c : ascii) : N := code c - 0x80.

(** The range the second byte of a 3- or 4-byte sequence must lie in
    (the accept ranges of package utf8). *)
Definition second_ok (c0 c1 : ascii) : bool :=
  let b0 := code c0 in
  if b0 =? 0xE0 then between 0xA0 0xBF c1
  else if b0 =? 0xED then between 0x80 0x9F c1
  else if b0 =? 0xF0 then between 0x90 0xBF c1
  else if b0 =? 0xF4 then between 0x80 0x8F c1
  else between 0x80 0xBF c1.

(** [utf8.DecodeRune]: the first rune of [s] and its width in bytes;
    [(RuneError, 1)] on an invalid or truncated sequence, [(RuneError, 0)]
    on the empty string. *)
Definition DecodeRune (s : string) : N * nat :=
  match s with
  | EmptyString => (RuneError, 0%nat)
  | String c0 t0 =>
      if code c0 <? RuneSelf then (code c0, 1%nat)
      else if between 0xC2 0xDF c0 then
        match t0 with
        | String c1 _ =>
            if between 0x80 0xBF c1
            then ((code c0 - 0xC0) * 64 + low6 c1, 2%nat)
            else (RuneError, 1%nat)
        | EmptyString => (RuneError, 1%nat)
        end
      else if between 0xE0 0xEF c0 then
        match t0 with
        | String c1 (String c2 _) =>
            if second_ok c0 c1 && between 0x80 0xBF c2
            then (((code c0 - 0xE0) * 64 + low6 c1) * 64 + low6 c2, 3%nat)
            else (RuneError, 1%nat)
        | _ => (RuneError, 1%nat)
        end
      else if between 0xF0 0xF4 c0 then
        match t0 with
        | String c1 (String c2 (String c3 _)) =>
            if second_ok c0 c1 && between 0x80 0xBF c2 && between 0x80 0xBF c3
            then ((((code c0 - 0xF0) * 64 + low6 c1) * 64 + low6 c2) * 64
                  + low6 c3, 4%nat)
            else (RuneError, 1%nat)
        | _ => (RuneError, 1%nat)
        end
      else (RuneError, 1%nat)
  end.

(** [utf8.EncodeRune]; surrogates and values past U+10FFFF are written as
    U+FFFD. *)
Definition EncodeRune (r : N) : string :=
  if r <=? 0x7F then String (chr r) EmptyString
  else if r <=? 0x7FF then
    String (chr (0xC0 + r / 64)) (String (chr (0x80 + r mod 64)) EmptyString)
  else if ((0xD800 <=? r) && (r <=? 0xDFFF)) || (0x10FFFF <? r) then
    String (chr 0xEF) (String (chr 0xBF) (String (chr 0xBD) EmptyString))
  else if r <=? 0xFFFF then
    String (chr (0xE0 + r / 4096))
      (String (chr (0x80 + (r / 64) mod 64))
         (String (chr (0x80 + r mod 64)) EmptyString))
  else
    String (chr (0xF0 + r / 262144))
      (String (chr (0x80 + (r / 4096) mod 64))
         (String (chr (0x80 + (r / 64) mod 64))
            (String (chr (0x80 + r mod 64)) EmptyString))).

(** The shapes a valid rune at the head of a string can have: the string,
    the rune and its width. *)
Inductive rune_at : string -> N -> nat -> Prop :=
| rune1 c0 t : code c0 < 0x80 -> rune_at (String c0 t) (code c0) 1
| rune2 c0 c1 t :
    0xC2 <= code c0 <= 0xDF -> 0x80 <= code c1 <= 0xBF ->
    rune_at (String c0 (String c1 t))
      ((code c0 - 0xC0) * 64 + low6 c1) 2
| rune3 c0 c1 c2 t :
    0xE0 <= code c0 <= 0xEF -> second_ok c0 c1 = true ->
    0x80 <= code c2 <= 0xBF ->
    rune_at (String c0 (String c1 (String c2 t)))
      (((code c0 - 0xE0) * 64 + low6 c1) * 64 + low6 c2) 3
| rune4 c0 c1 c2 c3 t :
    0xF0 <= code c0 <= 0xF4 -> second_ok c0 c1 = true ->
    0x80 <= code c2 <= 0xBF -> 0x80 <= code c3 <= 0xBF ->
    rune_at (String c0 (String c1 (String c2 (String c3 t))))
      ((((code c0 - 0xF0) * 64 + low6 c1) * 64 + low6 c2) * 64 + low6 c3) 4.

(** [s[n:]] and [s[:n]] *)
Fixpoint drop (n : nat) (s : string) : string :=
  match n, s with
  | S n', String _ t => drop n' t
  | _, _ => s
  end.

Fixpoint take (n : nat) (s : string) : string :=
  match n, s with
  | S n', String c t => String c (take n' t)
  | _, _ => EmptyString
  end.

(** Whether [DecodeRune] reported an invalid byte. *)
Definition invalid_rune (d : N * nat) : bool :=
  (fst d =? RuneError) && Nat.eqb (snd d) 1.

(** [utf8.ValidString] *)
Fixpoint valid_loop (fuel : nat) (s : string) : bool :=
  match fuel with
  | O => match s with EmptyString => true | _ => false end
  | S f =>
      match s with
      | EmptyString => true
      | String _ _ =>
          let d := DecodeRune s in
          if invalid_rune d then false else valid_loop f (drop (snd d) s)
      end
  end.

Definition ValidString (s : string) : bool := valid_loop (String.length s) s.

(** A string coerced to valid UTF-8 the way the encoder does it: every
    invalid byte becomes U+FFFD, valid sequences stay. *)
Fixpoint coerce_loop (fuel : nat) (s : string) : string :=
  match fuel with
  | O => EmptyString
  | S f =>
      match s with
      | EmptyString => EmptyString
      | String _ _ =>
          let d := DecodeRune s in
          if invalid_rune d
          then (EncodeRune RuneError ++ coerce_loop f (drop 1 s))%string
          else (take (snd d) s ++ coerce_loop f (drop (snd d) s))%string
      end
  end.

Definition coerce (s : string) : string := coerce_loop (String.length s) s.

(** The table [hex] of the encoder. *)
Definition hex (n : N) : ascii :=
  if n <? 10 then chr (48 + n) else chr (87 + n).

(** [htmlSafeSet]: the ASCII bytes written as they are. *)
Definition htmlSafe (c : ascii) : bool :=
  let b := code c in
  (0x20 <=? b) && (b <? 0x80)
  && negb (b =? 34) && negb (b =? 92)
  && negb (b =? 60) && negb (b =? 62) && negb (b =? 38).

Definition backslash : ascii := chr 92.

Definition quote : ascii := chr 34.

(** The escape written for an ASCII byte outside [htmlSafeSet]. *)
Definition escape_ascii (c : ascii) : string :=
  let b := code c in
  if (b =? 92) || (b =? 34) then String backslash (String c EmptyString)
  else if b =? 10 then String backslash "n"
  else if b =? 13 then String backslash "r"
  else if b =? 9 then String backslash "t"
  else String backslash
         (String "u" (String "0" (String "0"
            (String (hex (b / 16)) (String (hex (b mod 16)) EmptyString))))).

(** The loop of [appendString]: the bytes between the two quotes. *)
Fixpoint appendString_loop (fuel : nat) (s : string) : string :=
  match fuel with
  | O => EmptyString
  | S f =>
      match s with
      | EmptyString => EmptyString
      | String b rest =>
          if code b <? RuneSelf then
            ((if htmlSafe b then String b EmptyString else escape_ascii b)
             ++ appendString_loop f rest)%string
          else
            let d := DecodeRune s in
            if invalid_rune d then
              (String backslash "ufffd" ++ appendString_loop f (drop 1 s))%string
            else if (fst d =? 0x2028) || (fst d =? 0x2029) then
              (String backslash "u202" ++ String (hex (fst d mod 16)) EmptyString
               ++ appendString_loop f (drop (snd d) s))%string
            else
              (take (snd d) s ++ appendString_loop f (drop (snd d) s))%string
      end
  end.

(** A Go string as a JSON string literal. *)
Definition appendString (s : string) : string :=
  String quote (appendString_loop (String.length s) s ++ String quote EmptyString).

(** Value of a hexadecimal digit. *)
Definition unhex (c : ascii) : option N :=
  let b := code c in
  if (48 <=? b) && (b <=? 57) then Some (b - 48)
  else if (97 <=? b) && (b <=? 102) then Some (b - 87)
  else if (65 <=? b) && (b <=? 70) then Some (b - 55)
  else None.

(** [getu4] without the leading backslash and u: four hexadecimal digits. *)
Definition getu4 (s : string) : option (N * string) :=
  match s with
  | String h3 (String h2 (String h1 (String h0 t))) =>
      match unhex h3, unhex h2, unhex h1, unhex h0 with
      | Some a, Some b, Some c, Some d =>
          Some (((a * 16 + b) * 16 + c) * 16 + d, t)
      | _, _, _, _ => None
      end
  | _ => None
  end.

Definition IsSurrogate (r : N) : bool := (0xD800 <=? r) && (r <? 0xE000).

(** [utf16.DecodeRune] *)
Definition utf16_DecodeRune (r1 r2 : N) : N :=
  if (0xD800 <=? r1) && (r1 <? 0xDC00) && (0xDC00 <=? r2) && (r2 <? 0xE000)
  then (r1 - 0xD800) * 1024 + (r2 - 0xDC00) + 0x10000
  else RuneError.

(** A backslash-u escape after its four digits gave [rr]; [t] is the text
    after the digits.  Gives the rune written and the text left. *)
Definition escaped_rune (rr : N) (t : string) : N * string :=
  if IsSurrogate rr then
    match t with
    | String b (String u t1) =>
        if (code b =? 92) && (code u =? 117) then
          match getu4 t1 with
          | Some (rr1, t2) =>
              let dec := utf16_DecodeRune rr rr1 in
              if dec =? RuneError then (RuneError, t) else (dec, t2)
          | None => (RuneError, t)
          end
        else (RuneError, t)
    | _ => (RuneError, t)
    end
  else (rr, t).

Definition prepend (p : string) (r : option (string * string))
  : option (string * string) :=
  match r with
  | Some (v, rest) => Some ((p ++ v)%string, rest)
  | None => None
  end.

(** Reading a string literal whose opening quote has been consumed: the
    decoded string and the text after the closing quote.  [None]: not a JSON
    string. *)
Fixpoint unquote_loop (fuel : nat) (s : string) : option (string * string) :=
  match fuel with
  | O => None
  | S f =>
      match s with
      | EmptyString => None
      | String c t =>
          let b := code c in
          if b =? 34 then Some (EmptyString, t)
          else if b =? 92 then
            match t with
            | EmptyString => None
            | String e t' =>
                let x := code e in
                if (x =? 34) || (x =? 92) || (x =? 47)
                then prepend (String e EmptyString) (unquote_loop f t')
                else if x =? 98 then prepend (String (chr 8) EmptyString) (unquote_loop f t')
                else if x =? 102 then prepend (String (chr 12) EmptyString) (unquote_loop f t')
                else if x =? 110 then prepend (String (chr 10) EmptyString) (unquote_loop f t')
                else if x =? 114 then prepend (String (chr 13) EmptyString) (unquote_loop f t')
                else if x =? 116 then prepend (String (chr 9) EmptyString) (unquote_loop f t')
                else if x =? 117 then
                  match getu4 t' with
                  | Some (rr, t2) =>
                      let (r, t3) := escaped_rune rr t2 in
                      prepend (EncodeRune r) (unquote_loop f t3)
                  | None => None
                  end
                else None
            end
          else if b <? 0x20 then None
          else if b <? RuneSelf then prepend (String c EmptyString) (unquote_loop f t)
          else
            let d := DecodeRune s in
            prepend (EncodeRune (fst d)) (unquote_loop f (drop (snd d) s))
      end
  end.

(** A string literal at the head of [s]. *)
Definition unquote (s : string) : option (string * string) :=
  match s with
  | String c t => if code c =? 34 then unquote_loop (String.length s) t else None
  | EmptyString => None
  end.

(** [json.Marshal] of a value. *)
Definition marshal_value (v : Value) : string + string :=
  match v with
  | VString s => inl (appendString s)
  | VOther _ _ js => js
  end.

(** A [map[string]interface{}]: at most one binding per key. *)
Definition Map : Type := list (string * Value).

Fixpoint map_set (k : string) (v : Value) (m : Map) : Map :=
  match m with
  | [] => [(k, v)]
  | (k', v') :: r =>
      if String.eqb k k' then (k, v) :: r else (k', v') :: map_set k v r
  end.

(** Map keys are written in increasing byte order. *)
Fixpoint insert_sorted (kv : string * Value) (m : Map) : Map :=
  match m with
  | [] => [kv]
  | kv' :: r =>
      if String.ltb (fst kv') (fst kv)
      then kv' :: insert_sorted kv r
      else kv :: m
  end.

Definition sort_keys (m : Map) : Map := fold_right insert_sorted [] m.

(** The members of an object, comma separated; the first value that cannot
    be encoded fails the whole encoding. *)
Fixpoint marshal_members (m : Map) : string + string :=
  match m with
  | [] => inl EmptyString
  | (k, v) :: r =>
      match marshal_value v with
      | inr e => inr e
      | inl jv =>
          match r with
          | [] => inl (appendString k ++ ":" ++ jv)%string
          | _ :: _ =>
              match marshal_members r with
              | inr e => inr e
              | inl jr => inl (appendString k ++ ":" ++ jv ++ "," ++ jr)%string
              end
          end
      end
  end.

Definition marshal_map (m : Map) : string + string :=
  match marshal_members (sort_keys m) with
  | inl body => inl ("{" ++ body ++ "}")%string
  | inr e => inr e
  end.

(** What is handed to [json.Marshal]: a map or a single value. *)
Inductive Any : Type :=
| AMap (m : Map)
| AValue (v : Value).

Definition Marshal (info : Any) : string + string :=
  match info with
  | AMap m => marshal_map m
  | AValue v => marshal_value v
  end.

(** [json.Encoder.Encode]: the encoding followed by a newline. *)
Definition Encode (v : Value) : string + string :=
  match marshal_value v with
  | inl j => inl (j ++ String (chr 10) EmptyString)%string
  | inr e => inr e
  end.

(** JSON white space. *)
Definition isSpace (c : ascii) : bool :=
  let b := code c in (b =? 32) || (b =? 9) || (b =? 13) || (b =? 10).

Fixpoint all_space (s : string) : bool :=
  match s with
  | EmptyString => true
  | String c t => isSpace c && all_space t
  end.

(** The members of an object whose values are strings, in the compact form
    [Marshal] writes, from the first key to the closing brace. *)
Fixpoint read_members (fuel : nat) (s : string)
  : option (list (string * string) * string) :=
  match fuel with
  | O => None
  | S f =>
      match unquote s with
      | Some (k, String c1 r1) =>
          if code c1 =? 58 then
            match unquote r1 with
            | Some (v, String c2 r2) =>
                if code c2 =? 125 then Some ([(k, v)], r2)
                else if code c2 =? 44 then
                  match read_members f r2 with
                  | Some (kvs, rest) => Some ((k, v) :: kvs, rest)
                  | None => None
                  end
                else None
            | _ => None
            end
          else None
      | _ => None
      end
  end.

(** Decoding one object with string values; white space may follow it. *)
Definition read_object (s : string) : option (list (string * string)) :=
  match s with
  | String c0 t =>
      if code c0 =? 123 then
        match t with
        | String c1 t1 =>
            if code c1 =? 125 then (if all_space t1 then Some [] else None)
            else
              match read_members (String.length t) t with
              | Some (kvs, rest) => if all_space rest then Some kvs else None
              | None => None
              end
        | EmptyString => None
        end
      else None
  | EmptyString => None
  end.

(** The value decoded into a struct field tagged [key]: the last member of
    that name, or the zero value. *)
Fixpoint field (key : string) (kvs : list (string * string)) : string :=
  match kvs with
  | [] => EmptyString
  | (k, v) :: r =>
      if String.eqb k key && negb (existsb (fun kv => String.eqb (fst kv) key) r)
      then v else field key r
  end.

(** The struct the tests decode into, and [json.Unmarshal] into it. *)
Record mockedEntry : Type := mkEntry {
  Level : string;
  Content : string
}.

Definition Unmarshal (data : string) : option mockedEntry :=
  match read_object data with
  | Some kvs => Some (mkEntry (field "level" kvs) (field "content" kvs))
  | None => None
  end.

(** A map all of whose values are strings, and the members read back from
    its encoding: keys and values coerced to valid UTF-8. *)
Definition strings (kvs : list (string * string)) : Map :=
  map (fun kv => (fst kv, VString (snd kv))) kvs.

Definition coerced (kvs : list (string * string)) : list (string * string) :=
  map (fun kv => (coerce (fst kv), coerce (snd kv))) kvs.

(** No byte below 0x20: no newline and no other control character. *)
Fixpoint no_control (s : string) : bool :=
  match s with
  | EmptyString => true
  | String c t => (0x20 <=? code c) && no_control t
  end.

End Json.

(** ** logs.go and writer.go: configuration, level filter, writer registry,
    encoders and the package-level logging calls *)

Module Logx.

Local Open Scope string_scope.

Definition InfoLevel : N := 0.

Definition ErrorLevel : N := 1.

Definition jsonEncodingType : N := 0.

Definition plainEncodingType : N := 1.

Definition plainEncoding : string := "plain".

Definition fileMode : string := "file".

Definition callerKey : string := "caller".

Definition contentKey : string := "content".

Definition levelKey : string := "level".

Definition timestampKey : string := "@timestamp".

Definition levelInfo : string := "info".

Definition levelError : string := "error".

Record LogConf : Type := mkConf {
  Mode : string;
  Encoding : string;
  PlainEncodingSep : string;
  WithColor : bool;
  TimeFormat : string;
  Path : string;
  Level : string
}.

(** Values of the [Writer] interface.  Each allocation has its own identity
    [id]: the console writer of [newConsoleWriter], the file writer of
    [newFileWriter] with the path of its log file, or an implementation of
    the caller's own handed to [SetWriter]. *)
Inductive Writer : Type :=
| ConsoleWriter (id : nat)
| FileWriter (id : nat) (path : string)
| OtherWriter (id : nat).

(** The colours of package color that the encoder uses; [NoColor] is the
    zero value. *)
Inductive Color : Type := NoColor | FgRed | FgBlue.

(** A leveled write arriving at a writer: [w.Info(v)] or [w.Error(v)]. *)
Record Call : Type := mkCall {
  call_writer : Writer;
  call_level : string;
  call_val : Value
}.

(** The package-level variables, with the writers allocated so far
    ([allocs], the identity of the next one), the leveled writes the writers
    have received and the writers whose [Close] has been called. *)
Record Globals : Type := mkGlobals {
  setupOnce : bool;
  logLevel : N;
  encoding : N;
  withColor : bool;
  plainEncodingSep : string;
  timeFormat : string;
  writer : option Writer;
  conf : LogConf;
  allocs : nat;
  invoked : list Call;
  closed : list Writer
}.

(** The variables as the package initialises them. *)
Definition initial : Globals :=
  mkGlobals false 0 jsonEncodingType false (String (Json.chr 9) "")
    "2006-01-02T15:04:05.000Z07:00" None (mkConf "" "" "" false "" "" "")
    0 [] [].

(** What the encoders and the set-up take from outside the package: the
    clock ([time.Now().Format(layout)]), the call site ([getCaller]), the
    stack dump ([debug.Stack]), [color.WithColorPadding], [path.Join], the
    outcome of opening a log file ([NewLogger]: nil or an error) and what
    closing a writer answers. *)
Record Env : Type := mkEnv {
  time_Format : string -> string;
  call_site : string;
  debug_Stack : string;
  WithColorPadding : string -> Color -> string;
  path_Join : string -> string -> string;
  open_log : string -> error;
  close_answer : Writer -> error
}.

Definition set_setupOnce (b : bool) (g : Globals) : Globals :=
  mkGlobals b (logLevel g) (encoding g) (withColor g) (plainEncodingSep g)
    (timeFormat g) (writer g) (conf g) (allocs g) (invoked g) (closed g).

Definition set_logLevel (l : N) (g : Globals) : Globals :=
  mkGlobals (setupOnce g) l (encoding g) (withColor g) (plainEncodingSep g)
    (timeFormat g) (writer g) (conf g) (allocs g) (invoked g) (closed g).

Definition set_encoding (e : N) (g : Globals) : Globals :=
  mkGlobals (setupOnce g) (logLevel g) e (withColor g) (plainEncodingSep g)
    (timeFormat g) (writer g) (conf g) (allocs g) (invoked g) (closed g).

Definition set_withColor (b : bool) (g : Globals) : Globals :=
  mkGlobals (setupOnce g) (logLevel g) (encoding g) b (plainEncodingSep g)
    (timeFormat g) (writer g) (conf g) (allocs g) (invoked g) (closed g).

Definition set_plainEncodingSep (s : string) (g : Globals) : Globals :=
  mkGlobals (setupOnce g) (logLevel g) (encoding g) (withColor g) s
    (timeFormat g) (writer g) (conf g) (allocs g) (invoked g) (closed g).

Definition set_timeFormat (s : string) (g : Globals) : Globals :=
  mkGlobals (setupOnce g) (logLevel g) (encoding g) (withColor g)
    (plainEncodingSep g) s (writer g) (conf g) (allocs g) (invoked g) (closed g).

Definition set_writer (w : option Writer) (g : Globals) : Globals :=
  mkGlobals (setupOnce g) (logLevel g) (encoding g) (withColor g)
    (plainEncodingSep g) (timeFormat g) w (conf g) (allocs g) (invoked g)
    (closed g).

Definition set_conf (c : LogConf) (g : Globals) : Globals :=
  mkGlobals (setupOnce g) (logLevel g) (encoding g) (withColor g)
    (plainEncodingSep g) (timeFormat g) (writer g) c (allocs g) (invoked g)
    (closed g).

Definition set_allocs (n : nat) (g : Globals) : Globals :=
  mkGlobals (setupOnce g) (logLevel g) (encoding g) (withColor g)
    (plainEncodingSep g) (timeFormat g) (writer g) (conf g) n (invoked g)
    (closed g).

Definition add_invoked (c : Call) (g : Globals) : Globals :=
  mkGlobals (setupOnce g) (logLevel g) (encoding g) (withColor g)
    (plainEncodingSep g) (timeFormat g) (writer g) (conf g) (allocs g)
    (invoked g ++ [c]) (closed g).

Definition add_closed (w : Writer) (g : Globals) : Globals :=
  mkGlobals (setupOnce g) (logLevel g) (encoding g) (withColor g)
    (plainEncodingSep g) (timeFormat g) (writer g) (conf g) (allocs g)
    (invoked g) (closed g ++ [w]).

(** *** The writer registry ([atomicWriter]); each method runs under the
    lock, hence in one step. *)

Definition Load_writer (g : Globals) : option Writer := writer g.

Definition Store (v : option Writer) (g : Globals) : Globals := set_writer v g.

Definition StoreIfNil (v : option Writer) (g : Globals)
  : option Writer * Globals :=
  match writer g with
  | None => (v, set_writer v g)
  | Some w => (Some w, g)
  end.

Definition Swap (v : option Writer) (g : Globals) : option Writer * Globals :=
  (writer g, set_writer v g).

Definition newConsoleWriter (g : Globals) : Writer * Globals :=
  (ConsoleWriter (allocs g), set_allocs (S (allocs g)) g).

(** *** The level filter *)

Definition SetLevel (level : N) (g : Globals) : Globals := set_logLevel level g.

Definition shallLog (level : N) (g : Globals) : bool :=
  (logLevel g <=? level)%N.

Definition setupLogLevel (c : LogConf) (g : Globals) : Globals :=
  if String.eqb (Level c) levelInfo then SetLevel InfoLevel g
  else if String.eqb (Level c) levelError then SetLevel ErrorLevel g
  else g.

(** *** Set-up *)

(** [setupPath] assigns to its own copy of the configuration only. *)
Definition setupPath (c : LogConf) (g : Globals) : Globals := g.

Definition setupTimeFormat (c : LogConf) (g : Globals) : Globals :=
  if (0 <? String.length (TimeFormat c))%nat then set_timeFormat (TimeFormat c) g
  else g.

Definition setupPlainEncodingSep (c : LogConf) (g : Globals) : Globals :=
  if (0 <? String.length (PlainEncodingSep c))%nat
  then set_plainEncodingSep (PlainEncodingSep c) g
  else g.

Definition setupWithColor (c : LogConf) (g : Globals) : Globals :=
  if WithColor c then set_withColor (WithColor c) g else g.

Definition setupEncoding (c : LogConf) (g : Globals) : Globals :=
  if String.eqb (Encoding c) plainEncoding
  then set_encoding plainEncodingType g
  else set_encoding jsonEncodingType g.

Definition SetWriter (w : option Writer) (g : Globals) : Globals := Store w g.

Section WithEnv.

Variable env : Env.

Definition newFileWriter (c : LogConf) (name : string) (g : Globals)
  : option Writer * error * Globals :=
  let dir := if (String.length (Path c) =? 0)%nat then "logs" else Path c in
  let filePath := path_Join env dir name ++ ".log" in
  let g1 := setupLogLevel c g in
  match open_log env filePath with
  | Some e => (None, Some e, g1)
  | None => (Some (FileWriter (allocs g1) filePath), nil_error,
             set_allocs (S (allocs g1)) g1)
  end.

Definition setupWithConsole (g : Globals) : Globals :=
  let (w, g1) := newConsoleWriter g in SetWriter (Some w) g1.

Definition setupWithFiles (c : LogConf) (g : Globals) : error * Globals :=
  match newFileWriter c "logx" g with
  | (_, Some e, g1) => (Some e, g1)
  | (w, None, g1) => (nil_error, SetWriter w g1)
  end.

Definition setupWriter (c : LogConf) (g : Globals) : error * Globals :=
  if String.eqb (Mode c) fileMode then setupWithFiles c g
  else (nil_error, setupWithConsole g).

(** [Load]: the function given to [setupOnce.Do] runs on the first call
    only; on a later call the named result [err] keeps its zero value. *)
Definition Load (c : LogConf) (g : Globals) : error * Globals :=
  if setupOnce g then (nil_error, g)
  else
    let g1 := set_conf c g in
    let g2 := setupLogLevel c g1 in
    let g3 := setupPath c g2 in
    let g4 := setupTimeFormat c g3 in
    let g5 := setupPlainEncodingSep c g4 in
    let g6 := setupWithColor c g5 in
    let g7 := setupEncoding c g6 in
    let (err, g8) := setupWriter c g7 in
    (err, set_setupOnce true g8).


(** *** The package-level calls *)

Definition getWriter (g : Globals) : option Writer * Globals :=
  match Load_writer g with
  | Some w => (Some w, g)
  | None =>
      let (c, g1) := newConsoleWriter g in
      StoreIfNil (Some c) g1
  end.

(** A method call on the writer; on a nil interface it panics ([None]). *)
Definition invoke (w : option Writer) (level : string) (v : Value) (g : Globals)
  : option Globals :=
  match w with
  | Some w0 => Some (add_invoked (mkCall w0 level v) g)
  | None => None
  end.

Definition errorTextSync (w : option Writer) (msg : string) (g : Globals)
  : option Globals :=
  if shallLog ErrorLevel g
  then invoke w levelError
         (VString (msg ++ String (Json.chr 10) "" ++ debug_Stack env)) g
  else Some g.

Definition infoTextSync (w : option Writer) (msg : string) (g : Globals)
  : option Globals :=
  if shallLog InfoLevel g then invoke w levelInfo (VString msg) g else Some g.

(** [Info], [Infof], [Error], [Errorf]; [msg] is the text [fmt] made of the
    arguments.  The writer is fetched before the level is looked at. *)
Definition Info (msg : string) (g : Globals) : option Globals :=
  let (w, g1) := getWriter g in infoTextSync w msg g1.

Definition Error (msg : string) (g : Globals) : option Globals :=
  let (w, g1) := getWriter g in errorTextSync w msg g1.

(** The package-level [Close]. *)
Definition Close (g : Globals) : error * Globals :=
  match Swap None g with
  | (Some w, g1) => (close_answer env w, add_closed w g1)
  | (None, g1) => (nil_error, g1)
  end.

(** *** Encoders *)

(** What an encoder does: hand bytes to the [io.Writer], or print a line on
    the standard logger. *)
Inductive Effect : Type :=
| Wrote (data : string)
| Logged (line : string).

(** An [io.Writer]: nil, or the error each [Write] answers. *)
Definition IoWriter : Type := option (string -> error).

Definition getTimestamp (g : Globals) : string := time_Format env (timeFormat g).

Definition getCaller : string := call_site env.

Definition wrapLevelWithColor (level : string) : string :=
  let colour :=
    if String.eqb level levelError then FgRed
    else if String.eqb level levelInfo then FgBlue
    else NoColor in
  match colour with
  | NoColor => level
  | _ => WithColorPadding env level colour
  end.

Definition newline : string := String (Json.chr 10) "".

(** The tail shared by [writePlainText] and [writePlainValue]. *)
Definition flush_buf (w : IoWriter) (buf : string) : list Effect :=
  match w with
  | None => [Logged buf]
  | Some wr =>
      match wr buf with
      | Some e => [Wrote buf; Logged e]
      | None => [Wrote buf]
      end
  end.

Definition writePlainText (w : IoWriter) (level msg : string) (g : Globals)
  : list Effect :=
  let buf := getTimestamp g in
  let buf := buf ++ plainEncodingSep g in
  let buf := buf ++ level in
  let buf := buf ++ plainEncodingSep g in
  let buf := buf ++ msg in
  let buf := buf ++ plainEncodingSep g in
  let buf := buf ++ (callerKey ++ "=" ++ getCaller) in
  let buf := buf ++ newline in
  flush_buf w buf.

Definition writePlainValue (w : IoWriter) (level : string) (val : Value)
  (g : Globals) : list Effect :=
  let buf := getTimestamp g in
  let buf := buf ++ plainEncodingSep g in
  let buf := buf ++ level in
  let buf := buf ++ plainEncodingSep g in
  match Json.Encode val with
  | inr e => [Logged e]
  | inl j =>
      let buf := buf ++ j in
      let buf := buf ++ plainEncodingSep g in
      let buf := buf ++ (callerKey ++ "=" ++ getCaller) in
      let buf := buf ++ newline in
      flush_buf w buf
  end.

Definition writePlainAny (w : IoWriter) (level : string) (val : Value)
  (g : Globals) : list Effect :=
  let level := if withColor g then wrapLevelWithColor level else level in
  match val with
  | VString v => writePlainText w level v g
  | VOther (Some e) _ _ => writePlainText w level e g
  | VOther None (Some s) _ => writePlainText w level s g
  | VOther None None _ => writePlainValue w level val g
  end.

Definition writeJson (w : IoWriter) (info : Json.Any) : list Effect :=
  match Json.Marshal info with
  | inr e => [Logged e]
  | inl content =>
      match w with
      | None => [Logged content]
      | Some wr => [Wrote (content ++ newline)]
      end
  end.

Definition output (w : IoWriter) (level : string) (val : Value) (g : Globals)
  : list Effect :=
  if (encoding g =? plainEncodingType)%N then writePlainAny w level val g
  else
    let entry : Json.Map := [] in
    let entry := Json.map_set timestampKey (VString (getTimestamp g)) entry in
    let entry := Json.map_set levelKey (VString level) entry in
    let entry := Json.map_set contentKey val entry in
    let entry := Json.map_set callerKey (VString getCaller) entry in
    writeJson w (Json.AMap entry).

End WithEnv.

(** The precedence chain in the words of the specification: the [String()]
    form of a stringifiable value, else the message of an error, else the
    value's own string, else the JSON serialization ([None] here). *)
Definition as_stringer (v : Value) : option string :=
  match v with VOther _ (Some s) _ => Some s | _ => None end.

Definition as_error (v : Value) : option string :=
  match v with VOther (Some e) _ _ => Some e | _ => None end.

Definition as_string (v : Value) : option string :=
  match v with VString s => Some s | _ => None end.

Definition first_of (a b : option string) : option string :=
  match a with Some _ => a | None => b end.

Definition spec_message (v : Value) : option string :=
  first_of (as_stringer v) (first_of (as_error v) (as_string v)).

(** The chain with the error ahead of the stringifiable value. *)
Definition text_message (v : Value) : option string :=
  first_of (as_string v) (first_of (as_error v) (as_stringer v)).

(** The line of plain mode: the four fields joined by the separator and one
    newline at the end. *)
Definition plain_line (ts sep level msg caller : string) : string :=
  ts ++ sep ++ level ++ sep ++ msg ++ sep ++ "caller=" ++ caller ++ newline.

(** A concrete environment and concrete settings to evaluate the encoders
    on: a fixed clock and call site, a colour wrapper that brackets the
    level, log files that always open and writers that close cleanly. *)
Definition sample_env : Env :=
  mkEnv (fun _ => "2024-01-01T00:00:00.000Z") "logx/main.go:10" "goroutine 1"
    (fun text c =>
       match c with
       | FgRed => "[red " ++ text ++ "]"
       | FgBlue => "[blue " ++ text ++ "]"
       | NoColor => text
       end)
    (fun dir name => dir ++ "/" ++ name)
    (fun _ => None)
    (fun _ => None).

(** Plain encoding with separator "|" and no colour. *)
Definition plain_globals : Globals :=
  set_plainEncodingSep "|" (set_encoding plainEncodingType initial).

(** An [io.Writer] that accepts every write. *)
Definition accepting : IoWriter := Some (fun _ => None).

(** A value that is both an error and a Stringer. *)
Definition error_and_stringer : Value :=
  VOther (Some "as error") (Some "as stringer") (inl "{}").

(** A channel: [json] cannot encode it. *)
Definition a_channel : Value :=
  VOther None None (inr "json: unsupported type: chan int").

(** A Go string that is not valid UTF-8: the single byte 0xFF. *)
Definition byte_ff : string := String (Json.chr 255) "".

(** The integer 42. *)
Definition forty_two : Value := VOther None None (inl "42").

(** [logger], the named file logger: a writer of its own, outside the
    registry. *)
Record logger : Type := mkNamed { lw : Writer }.

(** [NewFileLogger].  The package never assigns nil to [conf] (it starts as
    [new(LogConf)] and [Load] stores the address of its argument), so the
    nil test of the source never fires. *)
Definition NewFileLogger (env : Env) (name : string) (g : Globals)
  : option logger * error * Globals :=
  match newFileWriter env (conf g) name g with
  | (_, Some e, g1) => (None, Some e, g1)
  | (Some w, None, g1) => (Some (mkNamed w), nil_error, g1)
  | (None, None, g1) => (None, nil_error, g1)
  end.

(** The methods of [logger]. *)
Definition logger_Error (env : Env) (l : logger) (msg : string) (g : Globals)
  : option Globals :=
  errorTextSync env (Some (lw l)) msg g.

Definition logger_Info (l : logger) (msg : string) (g : Globals)
  : option Globals :=
  infoTextSync (Some (lw l)) msg g.

Definition logger_Close (env : Env) (l : logger) (g : Globals)
  : error * Globals :=
  (close_answer env (lw l), add_closed (lw l) g).

(** The directory [newFileWriter] puts log files in. *)
Definition log_dir (c : LogConf) : string :=
  if (String.length (Path c) =? 0)%nat then "logs" else Path c.

(** An environment like [sample_env] in which no log file can be opened. *)
Definition no_disk_env : Env :=
  mkEnv (time_Format sample_env) (call_site sample_env)
    (debug_Stack sample_env) (WithColorPadding sample_env)
    (path_Join sample_env) (fun _ => Some "permission denied")
    (close_answer sample_env).

(** The line of JSON mode: the object with its keys in increasing order,
    [content] being the JSON text of the payload, and one newline. *)
Definition json_line (ts level content caller : string) : string :=
  "{" ++ Json.appendString timestampKey ++ ":" ++ Json.appendString ts
  ++ "," ++ Json.appendString callerKey ++ ":" ++ Json.appendString caller
  ++ "," ++ Json.appendString contentKey ++ ":" ++ content
  ++ "," ++ Json.appendString levelKey ++ ":" ++ Json.appendString level
  ++ "}" ++ newline.

End Logx.

(** ** writer.go: the call site

    [getCaller] asks the runtime for the file and line of a stack frame;
    [prettyCaller] keeps the last two components of the file path. *)

Module Caller.

Local Open Scope string_scope.

Definition slash : ascii := "/".

(** [strings.LastIndexByte]: the index of the last [c] in [s], or -1. *)
Fixpoint LastIndexByte (s : string) (c : ascii) : Z :=
  match s with
  | EmptyString => (-1)%Z
  | String a t =>
      let r := LastIndexByte t c in
      if (0 <=? r)%Z then (r + 1)%Z
      else if Ascii.eqb a c then 0%Z else (-1)%Z
  end.

(** [fmt.Sprintf("%s:%d", file, line)] *)
Definition Sprintf_file_line (file : string) (line : Z) : string :=
  file ++ ":" ++ NilZero.string_of_int (Z.to_int line).

Definition prettyCaller (file : string) (line : Z) : string :=
  let idx := LastIndexByte file slash in
  if (idx <? 0)%Z then Sprintf_file_line file line
  else
    let idx := LastIndexByte (Json.take (Z.to_nat idx) file) slash in
    if (idx <? 0)%Z then Sprintf_file_line file line
    else Sprintf_file_line (Json.drop (Z.to_nat (idx + 1)) file) line.

(** [getCaller]; the argument is what [runtime.Caller(callDepth)] answers:
    the file and line of the frame, or nothing when there is no such
    frame. *)
Definition getCaller (frame : option (string * Z)) : string :=
  match frame with
  | None => ""
  | Some (file, line) => prettyCaller file line
  end.

(** How many times the byte [c] occurs in [s]. *)
Fixpoint count_byte (c : ascii) (s : string) : nat :=
  match s with
  | EmptyString => 0
  | String a t => (if Ascii.eqb a c then 1 else 0) + count_byte c t
  end.

End Caller.

(** * Properties of the sink *)

Module SinkFacts.

Import Sink.

Local Open Scope string_scope.
Local Open Scope list_scope.

(** A sink straight from [NewLogger]: open, worker running, nothing queued. *)
Example fresh_is_open :
  fresh None None
  = mkLogger "logs/logx.log" (Some (mkFile None None [])) [] false 1 OnceIdle.
Proof. reflexivity. Qed.

(** With nothing queued and [done] open, a write can only enqueue. *)
Example write_open_sink :
  Write PickFirst "abc" (mkSt (fresh None None) [])
  = Some (mkSt (set_channel ["abc"] (fresh None None)) [], (3, None))
  /\ Write PickSecond "abc" (mkSt (fresh None None) []) = None.
Proof. split; reflexivity. Qed.

Lemma written_app (a b : list FileOp) : written (a ++ b) = written a ++ written b.
Proof.
  induction a as [|op a IH]; simpl; [reflexivity|].
  destruct op; simpl; rewrite IH; reflexivity.
Qed.

Lemma written_map_OpWrite (vs : list string) : written (map OpWrite vs) = vs.
Proof. induction vs as [|v vs IH]; simpl; congruence. Qed.

(** The worker's last run, from the closing of [done] to its return: it
    writes the first [k] queued items to the file, in order, leaves the
    others in the channel and brings the wait group to zero. *)
Lemma worker_finish_spec (k : nat) :
  forall name f ch once,
    k <= List.length ch ->
    worker_finish k (mkLogger name (Some f) ch true 1 once)
    = Some (mkLogger name
              (Some (mkFile (f_sync_err f) (f_close_err f)
                       (f_ops f ++ map OpWrite (firstn k ch))))
              (skipn k ch) true 0 once).
Proof.
  induction k as [|k IH]; intros name f ch once Hk.
  - simpl. rewrite app_nil_r. destruct f; reflexivity.
  - destruct ch as [|event rest]; simpl in Hk; [lia|].
    cbn [worker_finish worker_iter waitGroup channel].
    unfold write, set_channel, set_fp, file_do; cbn.
    rewrite IH by lia. cbn. rewrite <- app_assoc. reflexivity.
Qed.

Lemma Close_first (k : nat) (name : string) (f : File) (ch : list string) :
  k <= List.length ch ->
  Close k (mkLogger name (Some f) ch false 1 OnceIdle)
  = Some (mkLogger name
            (Some (mkFile (f_sync_err f) (f_close_err f)
                     (f_ops f ++ map OpWrite (firstn k ch) ++ close_ops f)))
            (skipn k ch) true 0 OnceDone,
          first_close_result f).
Proof.
  intros Hk. unfold Close, Close_signal, set_done, set_closeOnce.
  cbn [closeOnce waitGroup filename fp channel done].
  rewrite worker_finish_spec by exact Hk.
  unfold Close_finish, sync_and_close, first_close_result, close_ops, file_do.
  cbn. destruct (f_sync_err f) as [e|]; cbn;
    repeat rewrite <- app_assoc; reflexivity.
Qed.

Lemma Close_later (ks : list nat) :
  forall l, closeOnce l = OnceDone ->
    Close_all ks l = Some (l, repeat nil_error (List.length ks)).
Proof.
  induction ks as [|k ks IH]; intros l Hl; simpl; [reflexivity|].
  unfold Close, Close_again. rewrite Hl. rewrite (IH l Hl). reflexivity.
Qed.

(** Once the worker has returned nothing is written to the file any more,
    whatever producers and closers do next. *)
Lemma Write_keeps_file (p : Pick) (data : string) (s s' : St) (r : nat * error) :
  Write p data s = Some (s', r) ->
  waitGroup (lg s') = waitGroup (lg s) /\ fp (lg s') = fp (lg s).
Proof.
  unfold Write. intros H. destruct p.
  - destruct (Nat.ltb _ _); [|discriminate].
    inversion H; subst. split; reflexivity.
  - destruct (done (lg s)); [|discriminate].
    inversion H; subst. split; reflexivity.
Qed.

Lemma sync_and_close_written (f : option File) :
  match fst (sync_and_close f) with
  | Some f' => written (f_ops f')
  | None => []
  end
  = match f with Some f0 => written (f_ops f0) | None => [] end.
Proof.
  destruct f as [f|]; [|reflexivity].
  unfold sync_and_close, file_do. cbn [f_sync_err f_close_err f_ops].
  destruct (f_sync_err f); cbn [fst f_ops];
    repeat rewrite written_app; cbn [written]; repeat rewrite app_nil_r;
    reflexivity.
Qed.

Lemma step_after_worker (ev : Event) (s s' : St) (r : Result) :
  waitGroup (lg s) = 0 ->
  step ev s = Some (s', r) ->
  waitGroup (lg s') = 0 /\ file_contents (lg s') = file_contents (lg s).
Proof.
  intros Hw Hs. destruct ev as [p data|p| | |]; unfold step in Hs.
  - destruct (Write p data s) as [[s1 [n e]]|] eqn:HW; [|discriminate].
    inversion Hs; subst. apply Write_keeps_file in HW. destruct HW as [H1 H2].
    unfold file_contents. rewrite H1, H2. auto.
  - unfold worker_iter in Hs. rewrite Hw in Hs. discriminate.
  - unfold Close_signal in Hs.
    destruct (closeOnce (lg s)); try discriminate.
    inversion Hs; subst. cbn. auto.
  - unfold Close_finish in Hs. rewrite Hw in Hs.
    destruct (closeOnce (lg s)); try discriminate.
    pose proof (sync_and_close_written (fp (lg s))) as Hsc.
    destruct (sync_and_close (fp (lg s))) as [f err].
    inversion Hs; subst. cbn in *. split; [exact Hw|].
    unfold file_contents. cbn. exact Hsc.
  - unfold Close_again in Hs.
    destruct (closeOnce (lg s)); try discriminate.
    inversion Hs; subst. destruct s; cbn in *. auto.
Qed.

Lemma run_after_worker (evs : list Event) :
  forall s s' rs,
    waitGroup (lg s) = 0 ->
    run evs s = Some (s', rs) ->
    file_contents (lg s') = file_contents (lg s).
Proof.
  induction evs as [|ev evs IH]; intros s s' rs Hw Hr; simpl in Hr.
  - inversion Hr; reflexivity.
  - destruct (step ev s) as [[s1 r]|] eqn:Hs; [|discriminate].
    destruct (run evs s1) as [[s2 rs']|] eqn:Hr'; [|discriminate].
    inversion Hr; subst.
    destruct (step_after_worker _ _ _ _ Hw Hs) as [Hw1 Hf1].
    rewrite (IH _ _ _ Hw1 Hr'). exact Hf1.
Qed.

(** After [done] is closed, a write with room left in the buffer has both
    cases of its [select] ready. *)
Lemma write_after_done_both_ready (data : string) (s : St) :
  done (lg s) = true ->
  List.length (channel (lg s)) < bufferSize ->
  Write PickFirst data s
  = Some (with_lg (set_channel (channel (lg s) ++ [data])) s,
          (String.length data, nil_error))
  /\ Write PickSecond data s = Some (log_Println data s, (0, ErrLogFileClosed)).
Proof.
  intros Hd Hl. unfold Write. rewrite Hd.
  apply Nat.ltb_lt in Hl. rewrite Hl. split; reflexivity.
Qed.

(** With the buffer full, a write after [done] is closed can only fail. *)
Lemma write_after_done_full (data : string) (s : St) :
  done (lg s) = true ->
  List.length (channel (lg s)) = bufferSize ->
  Write PickFirst data s = None
  /\ Write PickSecond data s = Some (log_Println data s, (0, ErrLogFileClosed)).
Proof.
  intros Hd Hl. unfold Write. rewrite Hd, Hl. split; reflexivity.
Qed.

(** C1, at the failing input: a sink is created and closed ([Close]
    returns nil, [done] is closed, the worker has returned), then
    [Write("late")] is called.  Its [select] may take the send: the call
    returns [(4, nil)], the bytes sit in the channel, which nobody reads
    any more, and nothing reaches the fallback stream.  Whatever happens
    next, the file stays empty. *)
Theorem write_after_close_may_enqueue :
  exists l1 : DefaultLogger,
    Close 0 (fresh None None) = Some (l1, nil_error)
    /\ done l1 = true
    /\ waitGroup l1 = 0
    /\ closeOnce l1 = OnceDone
    /\ Write PickFirst "late" (mkSt l1 [])
       = Some (mkSt (set_channel ["late"] l1) [], (4, nil_error))
    /\ (forall evs s rs,
          run evs (mkSt (set_channel ["late"] l1) []) = Some (s, rs) ->
          file_contents (lg s) = []).
Proof.
  eexists. split; [reflexivity|].
  repeat split.
  intros evs s rs Hr.
  apply run_after_worker in Hr; [exact Hr|reflexivity].
Qed.

(** C2, at the failing input: one record is enqueued on an open sink, then
    [Close] is called.  The worker's [select] may take the [done] case with
    the record still queued: [Close] completes with nil, the file has been
    synced and closed without the record, and the record is never written. *)
Theorem close_may_drop_queued_record :
  exists s : St,
    run [EWrite PickFirst "rec"; ECloseSignal; EWorker PickSecond; ECloseFinish]
        (mkSt (fresh None None) [])
    = Some (s, [RWrite 3 nil_error; RNone; RNone; RClose nil_error])
    /\ channel (lg s) = ["rec"]
    /\ file_contents (lg s) = []
    /\ fp (lg s) = Some (mkFile None None [OpSync; OpClose])
    /\ stdlog s = []
    /\ (forall evs s' rs, run evs s = Some (s', rs) -> file_contents (lg s') = []).
Proof.
  eexists. split; [reflexivity|].
  repeat split.
  intros evs s' rs Hr.
  apply run_after_worker in Hr; [exact Hr|reflexivity].
Qed.

(** The same through [Close] as one call: the worker's schedule [0] drops
    the record, the schedule [1] writes it. *)
Example close_schedules :
  Close 0 (set_channel ["rec"] (fresh None None))
  = Some (mkLogger "logs/logx.log" (Some (mkFile None None [OpSync; OpClose]))
            ["rec"] true 0 OnceDone, None)
  /\ Close 1 (set_channel ["rec"] (fresh None None))
     = Some (mkLogger "logs/logx.log"
               (Some (mkFile None None [OpWrite "rec"; OpSync; OpClose]))
               [] true 0 OnceDone, None).
Proof. split; reflexivity. Qed.

(** However producers, worker and closers interleave, the Once lets the
    shutdown sequence start at most once and finish at most once, and
    every [Close] that finds it done returns nil. *)
Lemma once_in_any_run (evs : list Event) :
  forall s s' rs,
    run evs s = Some (s', rs) ->
    match closeOnce (lg s) with
    | OnceIdle => count_signal evs <= 1 /\ count_finish evs <= count_signal evs
    | OnceRunning => count_signal evs = 0 /\ count_finish evs <= 1
    | OnceDone => count_signal evs = 0 /\ count_finish evs = 0
    end
    /\ Forall (fun r => r = RClose nil_error) (later_closes evs rs).
Proof.
  induction evs as [|ev evs IH]; intros s s' rs Hr; simpl in Hr.
  - inversion Hr; subst. cbn. destruct (closeOnce _); repeat split; auto.
  - destruct (step ev s) as [[s1 r]|] eqn:Hs; [|discriminate].
    destruct (run evs s1) as [[s2 rs']|] eqn:Hr'; [|discriminate].
    inversion Hr; subst. specialize (IH _ _ _ Hr'). destruct IH as [IHc IHl].
    destruct ev as [p data|p| | |]; unfold step in Hs.
    + destruct (Write p data s) as [[s1' [n e]]|] eqn:HW; [|discriminate].
      inversion Hs; subst.
      assert (Ho : closeOnce (lg s1) = closeOnce (lg s)).
      { unfold Write in HW. destruct p.
        - destruct (Nat.ltb _ _); [|discriminate]. inversion HW; reflexivity.
        - destruct (done (lg s)); [|discriminate]. inversion HW; reflexivity. }
      rewrite Ho in IHc. cbn. split; assumption.
    + unfold lift_lg in Hs.
      destruct (worker_iter p (lg s)) as [l1|] eqn:Hw; [|discriminate].
      inversion Hs; subst.
      assert (Ho : closeOnce l1 = closeOnce (lg s)).
      { unfold worker_iter in Hw. destruct (waitGroup (lg s)); [discriminate|].
        destruct p.
        - destruct (channel (lg s)); [discriminate|]. inversion Hw; subst.
          unfold write. cbn. destruct (fp (lg s)); reflexivity.
        - destruct (done (lg s)); [|discriminate]. inversion Hw; reflexivity. }
      cbn in IHc. rewrite Ho in IHc. cbn. split; assumption.
    + unfold lift_lg, Close_signal in Hs.
      destruct (closeOnce (lg s)) eqn:Ho; try discriminate.
      inversion Hs; subst. cbn in IHc. cbn. split; [lia|assumption].
    + unfold lift_close, Close_finish in Hs.
      destruct (closeOnce (lg s)) eqn:Ho; try discriminate.
      destruct (waitGroup (lg s)); [|discriminate].
      destruct (sync_and_close (fp (lg s))) as [f err].
      inversion Hs; subst. cbn in IHc. cbn. split; [lia|assumption].
    + unfold lift_close, Close_again in Hs.
      destruct (closeOnce (lg s)) eqn:Ho; try discriminate.
      inversion Hs; subst. cbn in IHc. rewrite Ho in IHc. cbn.
      split; [assumption|]. constructor; [reflexivity|assumption].
Qed.

(** C3 as stated fails: when the flush fails, the first [Close] returns the
    error and the second returns nil, so the calls do not all return the
    same result. *)
Lemma Close_results_differ :
  ~ (forall (l l' : DefaultLogger) (ks : list nat) (rs : list error),
       Close_all ks l = Some (l', rs) ->
       forall r1 r2, In r1 rs -> In r2 rs -> r1 = r2).
Proof.
  intros H.
  specialize (H (fresh (Some "sync failed") None) _ [0; 0]
                [Some "sync failed"; None] eq_refl
                (Some "sync failed") None).
  simpl in H. discriminate H; auto.
Qed.

(** C3, amended: on an open sink, [Close] called any number of times (the
    first call with any schedule of the worker) runs the shutdown sequence
    once: [done] is closed, the worker returns after writing the items it
    still took, the handle is synced once and closed at most once (not at
    all when the sync fails).  The first call returns the error of the sync
    or of the close, every later call returns nil.  In every interleaving of
    closers with producers and the worker, the sequence starts at most once
    and finishes at most once, and every [Close] that finds it done returns
    nil. *)
Theorem Close_runs_once (k : nat) (ks : list nat) (name : string) (f : File)
  (ch : list string) :
  k <= List.length ch ->
  Close_all (k :: ks) (mkLogger name (Some f) ch false 1 OnceIdle)
  = Some (mkLogger name
            (Some (mkFile (f_sync_err f) (f_close_err f)
                     (f_ops f ++ map OpWrite (firstn k ch) ++ close_ops f)))
            (skipn k ch) true 0 OnceDone,
          first_close_result f :: repeat nil_error (List.length ks))
  /\ (forall evs out s' rs,
        run evs (mkSt (mkLogger name (Some f) ch false 1 OnceIdle) out)
        = Some (s', rs) ->
        count_signal evs <= 1
        /\ count_finish evs <= count_signal evs
        /\ Forall (fun r => r = RClose nil_error) (later_closes evs rs)).
Proof.
  intros Hk. split.
  - cbn [Close_all]. rewrite Close_first by exact Hk.
    rewrite Close_later by reflexivity. reflexivity.
  - intros evs out s' rs Hr.
    destruct (once_in_any_run evs _ _ _ Hr) as [[H1 H2] H3].
    repeat split; assumption.
Qed.

Lemma Close_runs_once_witness :
  0 <= List.length (@nil string)
  /\ Close_all [0; 0; 0] (fresh (Some "sync failed") (Some "close failed"))
     = Some (mkLogger "logs/logx.log"
               (Some (mkFile (Some "sync failed") (Some "close failed") [OpSync]))
               [] true 0 OnceDone,
             [Some "sync failed"; None; None]).
Proof.
  split; [simpl; lia|].
  exact (proj1 (Close_runs_once 0 [0; 0] "logs/logx.log"
                  (mkFile (Some "sync failed") (Some "close failed") []) []
                  (Nat.le_0_l _))).
Defined.

(** C10: a [Write] that returns has either enqueued the bytes and returned
    their full length with a nil error, the file being untouched, or has
    taken the closed branch, printed the bytes on the standard logger and
    returned 0 with [ErrLogFileClosed]; no other count is returned. *)
Theorem Write_count (p : Pick) (data : string) (s s' : St) (n : nat) (e : error) :
  Write p data s = Some (s', (n, e)) ->
  (p = PickFirst
   /\ n = String.length data /\ e = nil_error
   /\ channel (lg s') = channel (lg s) ++ [data]
   /\ fp (lg s') = fp (lg s)
   /\ stdlog s' = stdlog s)
  \/ (p = PickSecond
      /\ n = 0 /\ e = ErrLogFileClosed
      /\ lg s' = lg s
      /\ stdlog s' = stdlog s ++ [data]).
Proof.
  intros H. unfold Write in H. destruct p.
  - left. destruct (Nat.ltb _ _); [|discriminate].
    inversion H; subst. cbn. repeat split; reflexivity.
  - right. destruct (done (lg s)); [|discriminate].
    inversion H; subst. cbn. repeat split; reflexivity.
Qed.

Lemma Write_count_witness :
  (PickFirst = PickFirst
   /\ 3 = String.length "abc" /\ @None string = nil_error
   /\ channel (lg (mkSt (set_channel ["abc"] (fresh None None)) []))
      = channel (lg (mkSt (fresh None None) [])) ++ ["abc"]
   /\ fp (lg (mkSt (set_channel ["abc"] (fresh None None)) []))
      = fp (lg (mkSt (fresh None None) []))
   /\ stdlog (mkSt (set_channel ["abc"] (fresh None None)) [])
      = stdlog (mkSt (fresh None None) []))
  \/ (PickFirst = PickSecond
      /\ 3 = 0 /\ @None string = ErrLogFileClosed
      /\ lg (mkSt (set_channel ["abc"] (fresh None None)) [])
         = lg (mkSt (fresh None None) [])
      /\ stdlog (mkSt (set_channel ["abc"] (fresh None None)) [])
         = stdlog (mkSt (fresh None None) []) ++ ["abc"]).
Proof.
  apply (Write_count PickFirst "abc" (mkSt (fresh None None) [])
           (mkSt (set_channel ["abc"] (fresh None None)) []) 3 None).
  reflexivity.
Defined.

End SinkFacts.

(** * Properties of the level filter, the set-up and the registry *)

Module LogxFacts.

Import Logx.

Local Open Scope string_scope.
Local Open Scope list_scope.

Example shallLog_table :
  shallLog InfoLevel (SetLevel InfoLevel initial) = true
  /\ shallLog ErrorLevel (SetLevel InfoLevel initial) = true
  /\ shallLog InfoLevel (SetLevel ErrorLevel initial) = false
  /\ shallLog ErrorLevel (SetLevel ErrorLevel initial) = true.
Proof. repeat split. Qed.

(** [getWriter] answers the writer in the slot, or installs a console writer
    of a new identity and answers that one. *)
Lemma getWriter_spec (g : Globals) :
  getWriter g
  = match writer g with
    | Some w => (Some w, g)
    | None => (Some (ConsoleWriter (allocs g)),
               set_writer (Some (ConsoleWriter (allocs g)))
                 (set_allocs (S (allocs g)) g))
    end.
Proof.
  unfold getWriter, Load_writer. destruct (writer g) as [w|] eqn:Hw; [reflexivity|].
  unfold newConsoleWriter, StoreIfNil. cbn. rewrite Hw. reflexivity.
Qed.

Lemma getWriter_keeps (g : Globals) :
  logLevel (snd (getWriter g)) = logLevel g
  /\ invoked (snd (getWriter g)) = invoked g.
Proof.
  rewrite getWriter_spec. destruct (writer g); split; reflexivity.
Qed.



Lemma setupWriter_keeps (env : Env) (c : LogConf) (g : Globals) :
  logLevel (snd (setupWriter env c g)) = logLevel (setupLogLevel c g)
  \/ logLevel (snd (setupWriter env c g)) = logLevel g.
Proof.
  unfold setupWriter. destruct (String.eqb (Mode c) fileMode).
  - left. unfold setupWithFiles, newFileWriter.
    destruct (open_log env _); reflexivity.
  - right. reflexivity.
Qed.

Lemma setupLogLevel_idem (c : LogConf) (g : Globals) :
  logLevel (setupLogLevel c (setupLogLevel c g)) = logLevel (setupLogLevel c g).
Proof.
  unfold setupLogLevel.
  destruct (String.eqb (Level c) levelInfo); [reflexivity|].
  destruct (String.eqb (Level c) levelError); reflexivity.
Qed.

Lemma Load_first (env : Env) (c : LogConf) (g : Globals) :
  setupOnce g = false ->
  setupOnce (snd (Load env c g)) = true
  /\ conf (snd (Load env c g)) = c
  /\ logLevel (snd (Load env c g)) = logLevel (setupLogLevel c g).
Proof.
  intros Hg. unfold Load. rewrite Hg.
  set (g7 := setupEncoding c _).
  assert (H7 : logLevel g7 = logLevel (setupLogLevel c g) /\ conf g7 = c).
  { subst g7. unfold setupEncoding, setupWithColor, setupPlainEncodingSep,
      setupTimeFormat, setupPath.
    repeat match goal with |- context [if ?b then _ else _] =>
      destruct b end; cbn; split; try reflexivity;
      unfold setupLogLevel;
      repeat match goal with |- context [if ?b then _ else _] =>
        destruct b end; reflexivity. }
  destruct H7 as [H7l H7c].
  assert (Hc : conf (snd (setupWriter env c g7)) = conf g7).
  { unfold setupWriter, setupWithFiles, newFileWriter, setupWithConsole,
      setupLogLevel.
    repeat match goal with |- context [if ?b then _ else _] =>
      destruct b end; try destruct (open_log env _); reflexivity. }
  assert (Hl : logLevel (snd (setupWriter env c g7)) = logLevel (setupLogLevel c g)).
  { destruct (setupWriter_keeps env c g7) as [H|H]; rewrite H; [|exact H7l].
    unfold setupLogLevel in *.
    destruct (String.eqb (Level c) levelInfo); [reflexivity|].
    destruct (String.eqb (Level c) levelError); [reflexivity|exact H7l]. }
  destruct (setupWriter env c g7) as [err g8]. cbn in *.
  repeat split; [congruence|exact Hl].
Qed.



(** C9: [getWriter] never answers nil: it answers the writer in the slot,
    or, the slot being empty, a console writer which it has installed.  The
    package-level [Close] empties the slot and returns nil when it was empty
    already; the next [getWriter] installs a console writer of a new
    identity, and a logging call after [Close] does not panic. *)
Theorem getWriter_never_nil (env : Env) (g : Globals) :
  (exists w,
     fst (getWriter g) = Some w
     /\ writer (snd (getWriter g)) = Some w
     /\ match writer g with
        | Some w0 => w = w0
        | None => w = ConsoleWriter (allocs g)
        end)
  /\ writer (snd (Close env g)) = None
  /\ match writer g with
     | Some w0 => fst (Close env g) = close_answer env w0
     | None => fst (Close env g) = nil_error /\ snd (Close env g) = g
     end
  /\ fst (getWriter (snd (Close env g))) = Some (ConsoleWriter (allocs g))
  /\ writer (snd (getWriter (snd (Close env g)))) = Some (ConsoleWriter (allocs g))
  /\ (forall msg, exists g', Info msg (snd (Close env g)) = Some g')
  /\ (forall msg, exists g', Error env msg (snd (Close env g)) = Some g').
Proof.
  split; [|split; [|split; [|split; [|split; [|split]]]]].
  - rewrite getWriter_spec. destruct (writer g) as [w|] eqn:Hw; eexists;
      repeat split; cbn; try exact Hw; reflexivity.
  - unfold Close, Swap. destruct (writer g); reflexivity.
  - unfold Close, Swap. destruct (writer g) as [w|] eqn:Hw; cbn; [reflexivity|].
    split; [reflexivity|]. destruct g; cbn in *. subst. reflexivity.
  - rewrite getWriter_spec. unfold Close, Swap. destruct (writer g); reflexivity.
  - rewrite getWriter_spec. unfold Close, Swap. destruct (writer g); reflexivity.
  - intros msg. unfold Info. rewrite getWriter_spec.
    unfold Close, Swap. destruct (writer g); cbn;
      unfold infoTextSync; match goal with |- context [if ?b then _ else _] =>
        destruct b end; eexists; reflexivity.
  - intros msg. unfold Error. rewrite getWriter_spec.
    unfold Close, Swap. destruct (writer g); cbn;
      unfold errorTextSync; match goal with |- context [if ?b then _ else _] =>
        destruct b end; eexists; reflexivity.
Qed.

End LogxFacts.

(** * Properties of the plain encoder *)

Module PlainFacts.

Import Logx.

Local Open Scope string_scope.
Local Open Scope list_scope.

(** The scenario of the specification: plain encoding, separator "|", no
    colour, [info("hello")]. *)
Example plain_hello :
  output sample_env accepting levelInfo (VString "hello") plain_globals
  = [Wrote ("2024-01-01T00:00:00.000Z|info|hello|caller=logx/main.go:10"
            ++ newline)%string].
Proof. reflexivity. Qed.

(** A payload of another type, here the integer 42: the encoder's newline
    follows the JSON text, ahead of the caller field. *)
Example plain_forty_two :
  output sample_env accepting levelInfo forty_two plain_globals
  = [Wrote ("2024-01-01T00:00:00.000Z|info|42" ++ newline
            ++ "|caller=logx/main.go:10" ++ newline)%string].
Proof. reflexivity. Qed.

Lemma append_assoc (a b c : string) : ((a ++ b) ++ c = a ++ (b ++ c))%string.
Proof. induction a as [|x a IH]; cbn; [reflexivity|]. rewrite IH. reflexivity. Qed.

(** The buffer [writePlainText] builds is the line of the wire format. *)
Lemma writePlainText_line (env : Env) (w : IoWriter) (level msg : string)
  (g : Globals) :
  writePlainText env w level msg g
  = flush_buf w (plain_line (getTimestamp env g) (plainEncodingSep g) level msg
                   (call_site env)).
Proof.
  unfold writePlainText, plain_line, getCaller, callerKey.
  repeat rewrite append_assoc. reflexivity.
Qed.

(** The buffer [writePlainValue] builds for a value JSON can encode: the
    JSON text is followed by the encoder's newline. *)
Lemma writePlainValue_line (env : Env) (w : IoWriter) (level j : string)
  (val : Value) (g : Globals) :
  Json.marshal_value val = inl j ->
  writePlainValue env w level val g
  = flush_buf w (plain_line (getTimestamp env g) (plainEncodingSep g) level
                   (j ++ newline) (call_site env)).
Proof.
  intros Hj. unfold writePlainValue, Json.Encode. rewrite Hj.
  unfold plain_line, getCaller, callerKey, newline.
  repeat rewrite append_assoc. reflexivity.
Qed.

(** [writePlainAny] dispatches on the payload along the chain string, error,
    Stringer, anything else. *)
Lemma writePlainAny_chain (env : Env) (w : IoWriter) (level : string)
  (val : Value) (g : Globals) :
  writePlainAny env w level val g
  = (let level' := if withColor g then wrapLevelWithColor env level else level in
     match text_message val with
     | Some msg => writePlainText env w level' msg g
     | None => writePlainValue env w level' val g
     end).
Proof.
  unfold writePlainAny, text_message, first_of, as_string, as_error, as_stringer.
  destruct val as [s|[e|] [s|] js]; reflexivity.
Qed.

(** C4 as stated fails: for a value that is an error and a Stringer the
    specification's chain picks the [String()] form, the encoder writes the
    error's message. *)
Lemma stringer_does_not_win :
  spec_message error_and_stringer = Some "as stringer"
  /\ writePlainAny sample_env accepting levelInfo error_and_stringer plain_globals
     = writePlainText sample_env accepting levelInfo "as error" plain_globals
  /\ writePlainAny sample_env accepting levelInfo error_and_stringer plain_globals
     <> writePlainText sample_env accepting levelInfo "as stringer" plain_globals.
Proof.
  split; [reflexivity|]. split; [reflexivity|].
  cbv. intros H. inversion H.
Qed.

(** C4, amended: in plain mode the message is chosen by the chain: the
    payload itself when it is a string, else the message of an error, else
    the [String()] form of a stringifiable value, else the JSON
    serialization; for a value that is both an error and a Stringer the
    error's message is used. *)
Theorem plain_message_precedence (env : Env) (w : IoWriter) (level : string)
  (val : Value) (g : Globals) :
  writePlainAny env w level val g
  = (let level' := if withColor g then wrapLevelWithColor env level else level in
     match text_message val with
     | Some msg => writePlainText env w level' msg g
     | None => writePlainValue env w level' val g
     end)
  /\ (forall e s js, text_message (VOther (Some e) (Some s) js) = Some e)
  /\ (forall s, text_message (VString s) = Some s)
  /\ (forall s js, text_message (VOther None (Some s) js) = Some s)
  /\ (forall js, text_message (VOther None None js) = None).
Proof.
  split; [apply writePlainAny_chain|repeat split].
Qed.

(** C7 as stated fails: a payload JSON cannot encode, here a channel,
    produces no line at all; the encoding error goes to the standard logger. *)
Lemma plain_unserialisable_no_line :
  output sample_env accepting levelError a_channel plain_globals
  = [Logged "json: unsupported type: chan int"]
  /\ (forall msg,
        output sample_env accepting levelError a_channel plain_globals
        <> [Wrote (plain_line "2024-01-01T00:00:00.000Z" "|" levelError msg
                     "logx/main.go:10")]).
Proof.
  split; [reflexivity|]. intros msg H. cbv in H. discriminate H.
Qed.

(** C7, amended: in plain mode, for a payload that is a string, an error or
    a stringifiable value, the bytes handed to the writer are exactly
    timestamp, level, message and [caller=<file:line>] joined by the
    separator and ended by one newline, the level being wrapped in its
    colour when colour is on (a failing write is reported on the standard
    logger); a payload of another type that JSON cannot encode produces no
    line, only the report of the error. *)
Theorem plain_wire_format (env : Env) (wr : string -> error) (level : string)
  (val : Value) (g : Globals) :
  encoding g = plainEncodingType ->
  let level' := if withColor g then wrapLevelWithColor env level else level in
  (forall msg,
     text_message val = Some msg ->
     let line := plain_line (getTimestamp env g) (plainEncodingSep g) level' msg
                   (call_site env) in
     output env (Some wr) level val g
     = Wrote line :: match wr line with Some e => [Logged e] | None => [] end)
  /\ (forall e,
        text_message val = None ->
        Json.marshal_value val = inr e ->
        output env (Some wr) level val g = [Logged e]).
Proof.
  intros Henc level'.
  assert (Hout : output env (Some wr) level val g
                 = writePlainAny env (Some wr) level val g).
  { unfold output. rewrite Henc. reflexivity. }
  rewrite Hout.
  rewrite writePlainAny_chain. cbv zeta. split.
  - intros msg Hm. rewrite Hm, writePlainText_line.
    unfold flush_buf. subst level'. destruct (wr _); reflexivity.
  - intros e Hm He. rewrite Hm. unfold writePlainValue, Json.Encode.
    rewrite He. reflexivity.
Qed.

Lemma plain_wire_format_witness :
  output sample_env accepting levelInfo (VString "hello") plain_globals
  = [Wrote (plain_line "2024-01-01T00:00:00.000Z" "|" levelInfo "hello"
              "logx/main.go:10")]
  /\ output sample_env accepting levelError a_channel plain_globals
     = [Logged "json: unsupported type: chan int"].
Proof.
  split.
  - apply (proj1 (plain_wire_format sample_env (fun _ => None) levelInfo
                    (VString "hello") plain_globals eq_refl) "hello" eq_refl).
  - apply (proj2 (plain_wire_format sample_env (fun _ => None) levelError
                    a_channel plain_globals eq_refl)
             "json: unsupported type: chan int" eq_refl eq_refl).
Defined.

End PlainFacts.

(** * Properties of the JSON encoding *)

Module JsonFacts.

Import Json.

Local Open Scope N_scope.

Ltac Zify.zify_post_hook ::= Z.div_mod_to_equations.

Lemma code_bound (c : ascii) : code c < 256.
Proof. apply N_ascii_bounded. Qed.

Lemma chr_code (c : ascii) : chr (code c) = c.
Proof. apply ascii_N_embedding. Qed.

Lemma code_chr (n : N) : n < 256 -> code (chr n) = n.
Proof. apply N_ascii_embedding. Qed.

Lemma chr_eq (n : N) (c : ascii) : n = code c -> chr n = c.
Proof. intros ->. apply chr_code. Qed.

Lemma between_spec (lo hi : N) (c : ascii) :
  between lo hi c = true <-> lo <= code c <= hi.
Proof.
  unfold between. rewrite andb_true_iff, !N.leb_le. reflexivity.
Qed.

Lemma second_ok_spec (c0 c1 : ascii) :
  second_ok c0 c1 = true ->
  0x80 <= code c1 <= 0xBF
  /\ (code c0 = 0xE0 -> 0xA0 <= code c1)
  /\ (code c0 = 0xED -> code c1 <= 0x9F)
  /\ (code c0 = 0xF0 -> 0x90 <= code c1)
  /\ (code c0 = 0xF4 -> code c1 <= 0x8F).
Proof.
  unfold second_ok.
  destruct (N.eqb_spec (code c0) 0xE0);
    [|destruct (N.eqb_spec (code c0) 0xED);
      [|destruct (N.eqb_spec (code c0) 0xF0);
        [|destruct (N.eqb_spec (code c0) 0xF4)]]];
    rewrite between_spec; lia.
Qed.

Lemma DecodeRune_valid (c : ascii) (t : string) :
  invalid_rune (DecodeRune (String c t)) = false ->
  rune_at (String c t) (fst (DecodeRune (String c t))) (snd (DecodeRune (String c t))).
Proof.
  unfold DecodeRune.
  destruct (N.ltb_spec (code c) RuneSelf) as [H0|H0].
  { intros _. apply rune1. exact H0. }
  destruct (between 0xC2 0xDF c) eqn:B2.
  { destruct t as [|c1 t]; [discriminate|].
    destruct (between 0x80 0xBF c1) eqn:C1; [|discriminate].
    intros _. apply between_spec in B2, C1. apply rune2; assumption. }
  destruct (between 0xE0 0xEF c) eqn:B3.
  { destruct t as [|c1 [|c2 t]]; try discriminate.
    destruct (second_ok c c1) eqn:S1; [|discriminate].
    destruct (between 0x80 0xBF c2) eqn:C2; [|discriminate].
    intros _. apply between_spec in B3, C2. apply rune3; assumption. }
  destruct (between 0xF0 0xF4 c) eqn:B4.
  { destruct t as [|c1 [|c2 [|c3 t]]]; try discriminate.
    destruct (second_ok c c1) eqn:S1; [|discriminate].
    destruct (between 0x80 0xBF c2) eqn:C2; [|discriminate].
    destruct (between 0x80 0xBF c3) eqn:C3; [|discriminate].
    intros _. apply between_spec in B4, C2, C3. apply rune4; assumption. }
  discriminate.
Qed.

Ltac pick_leb :=
  repeat match goal with
  | |- context [N.leb ?a ?b] => destruct (N.leb_spec a b); try lia
  | |- context [N.ltb ?a ?b] => destruct (N.ltb_spec a b); try lia
  end.

Ltac chr_bytes :=
  repeat match goal with
  | |- String _ _ = String _ _ => f_equal
  | |- chr _ = _ => apply chr_eq; rewrite ?N.Div0.mod_eq; lia
  end.

Lemma rune_at_decode (s : string) (r : N) (n : nat) (t : string) :
  rune_at s r n ->
  DecodeRune (take n s ++ t) = (r, n)
  /\ EncodeRune r = take n s
  /\ drop n (take n s ++ t) = t
  /\ (1 <= n <= String.length s)%nat
  /\ r < 0x110000.
Proof.
  intros H. destruct H as [c0 t0 H0|c0 c1 t0 H0 H1|c0 c1 c2 t0 H0 H1 H2
                          |c0 c1 c2 c3 t0 H0 H1 H2 H3].
  - cbn [take append drop String.length]. unfold DecodeRune, EncodeRune, RuneSelf in *.
    destruct (N.ltb_spec (code c0) 0x80); [|lia].
    destruct (N.leb_spec (code c0) 0x7F); [|lia].
    rewrite chr_code. repeat split; lia.
  - cbn [take append drop String.length]. unfold DecodeRune, RuneSelf, low6 in *.
    destruct (N.ltb_spec (code c0) 0x80); [lia|].
    assert (B : between 0xC2 0xDF c0 = true) by (apply between_spec; lia).
    assert (C : between 0x80 0xBF c1 = true) by (apply between_spec; lia).
    rewrite B, C.
    split; [reflexivity|]. split; [|split; [reflexivity|split; lia]].
    unfold EncodeRune. pick_leb. chr_bytes.
  - apply second_ok_spec in H1. destruct H1 as (H1 & E0 & ED & _ & _).
    cbn [take append drop String.length]. unfold DecodeRune, RuneSelf, low6 in *.
    destruct (N.ltb_spec (code c0) 0x80); [lia|].
    assert (B2 : between 0xC2 0xDF c0 = false).
    { apply not_true_is_false. rewrite between_spec. lia. }
    assert (B : between 0xE0 0xEF c0 = true) by (apply between_spec; lia).
    assert (C : between 0x80 0xBF c2 = true) by (apply between_spec; lia).
    rewrite B2, B, C.
    assert (S1 : second_ok c0 c1 = true).
    { unfold second_ok. pick_leb.
      repeat match goal with
      | |- context [N.eqb ?a ?b] => destruct (N.eqb_spec a b)
      end; apply between_spec; lia. }
    rewrite S1. cbn [andb].
    split; [reflexivity|]. split; [|split; [reflexivity|split; lia]].
    unfold EncodeRune. pick_leb; cbn [andb orb]; chr_bytes.
  - apply second_ok_spec in H1. destruct H1 as (H1 & _ & _ & F0 & F4).
    cbn [take append drop String.length]. unfold DecodeRune, RuneSelf, low6 in *.
    destruct (N.ltb_spec (code c0) 0x80); [lia|].
    assert (B2 : between 0xC2 0xDF c0 = false).
    { apply not_true_is_false. rewrite between_spec. lia. }
    assert (B3 : between 0xE0 0xEF c0 = false).
    { apply not_true_is_false. rewrite between_spec. lia. }
    assert (B : between 0xF0 0xF4 c0 = true) by (apply between_spec; lia).
    assert (C2 : between 0x80 0xBF c2 = true) by (apply between_spec; lia).
    assert (C3 : between 0x80 0xBF c3 = true) by (apply between_spec; lia).
    rewrite B2, B3, B, C2, C3.
    assert (S1 : second_ok c0 c1 = true).
    { unfold second_ok.
      repeat match goal with
      | |- context [N.eqb ?a ?b] => destruct (N.eqb_spec a b)
      end; apply between_spec; lia. }
    rewrite S1. cbn [andb].
    split; [reflexivity|]. split; [|split; [reflexivity|split; lia]].
    unfold EncodeRune. pick_leb; cbn [andb orb]; chr_bytes.
Qed.

Local Open Scope nat_scope.

Lemma app_assoc_string (a b c : string) : ((a ++ b) ++ c = a ++ (b ++ c))%string.
Proof. induction a as [|x a IH]; cbn; [reflexivity|]. rewrite IH. reflexivity. Qed.

Lemma length_app_string (a b : string) :
  String.length (a ++ b) = String.length a + String.length b.
Proof. induction a as [|x a IH]; cbn; [reflexivity|]. rewrite IH. reflexivity. Qed.

Lemma length_drop (n : nat) : forall s, String.length (drop n s) = String.length s - n.
Proof.
  induction n as [|n IH]; intros s; cbn; [lia|].
  destruct s as [|c t]; cbn; [reflexivity|]. apply IH.
Qed.

Lemma length_take (n : nat) : forall s,
  n <= String.length s -> String.length (take n s) = n.
Proof.
  induction n as [|n IH]; intros s H; cbn; [reflexivity|].
  destruct s as [|c t]; cbn in *; [lia|]. rewrite IH; lia.
Qed.

(** One step of the decoder on what the encoder writes for an ASCII byte. *)
Lemma ascii_step (b : ascii) :
  (code b < 0x80)%N ->
  forall fuel tail,
    unquote_loop (S fuel)
      ((if htmlSafe b then String b EmptyString else escape_ascii b) ++ tail)
    = prepend (String b EmptyString) (unquote_loop fuel tail).
Proof.
  destruct b as [[] [] [] [] [] [] [] []]; intros H fuel tail;
    first [discriminate H | reflexivity].
Qed.

Lemma ascii_emitted (b : ascii) :
  1 <= String.length (if htmlSafe b then String b EmptyString else escape_ascii b).
Proof.
  destruct (htmlSafe b); [cbn; lia|]. unfold escape_ascii.
  repeat match goal with |- context [if ?c then _ else _] => destruct c end;
    cbn; lia.
Qed.

Lemma fffd_step (fuel : nat) (tail : string) :
  unquote_loop (S fuel) (String backslash "ufffd" ++ tail)
  = prepend (EncodeRune RuneError) (unquote_loop fuel tail).
Proof. reflexivity. Qed.

Lemma separator_step (r : N) (fuel : nat) (tail : string) :
  r = 0x2028%N \/ r = 0x2029%N ->
  unquote_loop (S fuel)
    (String backslash "u202" ++ String (hex (r mod 16)) EmptyString ++ tail)
  = prepend (EncodeRune r) (unquote_loop fuel tail).
Proof. intros [-> | ->]; reflexivity. Qed.

Lemma unquote_loop_high (c : ascii) (t : string) (fuel : nat) :
  (0x80 <= code c)%N ->
  unquote_loop (S fuel) (String c t)
  = prepend (EncodeRune (fst (DecodeRune (String c t))))
      (unquote_loop fuel (drop (snd (DecodeRune (String c t))) (String c t))).
Proof.
  intros H. cbn [unquote_loop]. unfold RuneSelf.
  destruct (N.eqb_spec (code c) 34); [lia|].
  destruct (N.eqb_spec (code c) 92); [lia|].
  destruct (N.ltb_spec (code c) 0x20); [lia|].
  destruct (N.ltb_spec (code c) 0x80); [lia|].
  reflexivity.
Qed.

Lemma rune_step (c : ascii) (t : string) (r : N) (n : nat) (fuel : nat)
  (tail : string) :
  rune_at (String c t) r n ->
  (0x80 <= code c)%N ->
  unquote_loop (S fuel) (take n (String c t) ++ tail)
  = prepend (take n (String c t)) (unquote_loop fuel tail).
Proof.
  intros H Hc.
  destruct (rune_at_decode _ r n tail H) as (Hd & He & Hdrop & Hn & _).
  destruct n as [|n]; [lia|].
  cbn [take append] in *.
  rewrite unquote_loop_high by exact Hc.
  rewrite Hd. cbn [fst snd]. rewrite Hdrop, He. reflexivity.
Qed.

Lemma unquote_loop_quote (fuel : nat) (tail : string) :
  unquote_loop (S fuel) (String quote tail) = Some (EmptyString, tail).
Proof. reflexivity. Qed.

(** Decoding what the encoder wrote between the quotes gives the string
    coerced to valid UTF-8, and stops after the closing quote. *)
Lemma unquote_appendString_loop (n : nat) :
  forall s fuel tail,
    String.length s <= n ->
    String.length (appendString_loop n s) < fuel ->
    unquote_loop fuel (appendString_loop n s ++ String quote tail)
    = Some (coerce_loop n s, tail).
Proof.
  induction n as [|n IH]; intros s fuel tail Hs Hf.
  - destruct fuel as [|fuel]; [lia|]. reflexivity.
  - destruct fuel as [|fuel]; [lia|].
    destruct s as [|b rest]; [reflexivity|].
    cbn [String.length] in Hs.
    cbn [appendString_loop coerce_loop] in *.
    destruct (N.ltb_spec (code b) RuneSelf) as [Hb|Hb].
    + (* an ASCII byte *)
      rewrite length_app_string in Hf. pose proof (ascii_emitted b) as He.
      rewrite app_assoc_string, ascii_step by exact Hb.
      rewrite IH by lia.
      unfold DecodeRune. destruct (N.ltb_spec (code b) RuneSelf); [|lia].
      unfold invalid_rune, RuneError, RuneSelf in *. cbn [fst snd].
      destruct (N.eqb_spec (code b) 65533); [lia|].
      reflexivity.
    + destruct (invalid_rune (DecodeRune (String b rest))) eqn:Hinv.
      * (* an invalid byte *)
        rewrite length_app_string in Hf. cbn [drop] in *.
        rewrite app_assoc_string, fffd_step.
        cbn [String.length append] in Hf.
        rewrite IH by lia. reflexivity.
      * pose proof (DecodeRune_valid b rest Hinv) as Hr.
        set (d := DecodeRune (String b rest)) in *.
        destruct (rune_at_decode _ _ _ tail Hr) as (_ & He & _ & Hn & _).
        assert (Hdrop : String.length (drop (snd d) (String b rest)) <= n).
        { rewrite length_drop. cbn [String.length]. lia. }
        destruct ((fst d =? 8232)%N || (fst d =? 8233)%N) eqn:Hsep.
        -- (* U+2028, U+2029 *)
           rewrite !length_app_string in Hf. cbn [String.length] in Hf.
           rewrite !app_assoc_string.
           rewrite separator_step.
           ++ rewrite IH by lia. cbn [prepend]. rewrite He. reflexivity.
           ++ apply orb_true_iff in Hsep. rewrite !N.eqb_eq in Hsep. exact Hsep.
        -- rewrite length_app_string in Hf.
           rewrite length_take in Hf by lia.
           rewrite app_assoc_string.
           rewrite (rune_step b rest (fst d) (snd d)); [|exact Hr|unfold RuneSelf in Hb; exact Hb].
           rewrite IH by lia. reflexivity.
Qed.

Lemma coerce_loop_valid (n : nat) :
  forall s, String.length s <= n -> valid_loop n s = true -> coerce_loop n s = s.
Proof.
  induction n as [|n IH]; intros s Hs Hv.
  - destruct s; [reflexivity|discriminate].
  - destruct s as [|b rest]; [reflexivity|].
    cbn [valid_loop coerce_loop] in *.
    destruct (invalid_rune (DecodeRune (String b rest))) eqn:Hinv; [discriminate|].
    pose proof (DecodeRune_valid b rest Hinv) as Hr.
    set (d := DecodeRune (String b rest)) in *.
    destruct (rune_at_decode _ _ _ EmptyString Hr) as (_ & _ & _ & Hn & _).
    rewrite IH; [| rewrite length_drop; cbn [String.length] in *; lia | exact Hv].
    clear. generalize (snd d) (String b rest). intros k.
    induction k as [|k IHk]; intros s; cbn; [reflexivity|].
    destruct s as [|c t]; [reflexivity|]. cbn. rewrite IHk. reflexivity.
Qed.

Theorem unquote_appendString (s tail : string) :
  unquote (appendString s ++ tail) = Some (coerce s, tail).
Proof.
  unfold appendString, unquote. cbn [append].
  change (code quote =? 34)%N with true. cbv iota.
  rewrite app_assoc_string. cbn [append String.length].
  apply unquote_appendString_loop; [lia|].
  rewrite length_app_string. cbn [String.length]. lia.
Qed.

Corollary unquote_appendString_valid (s tail : string) :
  ValidString s = true -> unquote (appendString s ++ tail) = Some (s, tail).
Proof.
  intros H. rewrite unquote_appendString. unfold coerce.
  rewrite coerce_loop_valid; [reflexivity|lia|exact H].
Qed.

Local Open Scope string_scope.
Local Open Scope list_scope.
Local Open Scope nat_scope.

Lemma read_members_marshal (kvs : list (string * string)) :
  forall fuel tail,
    kvs <> [] ->
    List.length kvs <= fuel ->
    exists body,
      marshal_members (strings kvs) = inl body
      /\ read_members fuel (body ++ String "}" tail)%string
         = Some (coerced kvs, tail).
Proof.
  induction kvs as [|[k v] kvs IH]; intros fuel tail Hne Hf; [contradiction|].
  destruct fuel as [|fuel]; [cbn in Hf; lia|].
  destruct kvs as [|kv' kvs].
  - eexists. split; [reflexivity|].
    cbn [read_members]. rewrite !app_assoc_string.
    rewrite unquote_appendString. cbn [append].
    change (code ":" =? 58)%N with true. cbv iota.
    rewrite unquote_appendString.
    change (code "}" =? 125)%N with true. cbv iota. reflexivity.
  - destruct (IH fuel tail) as (body & Hb & Hr); [discriminate|cbn in *; lia|].
    cbn [strings map marshal_members marshal_value fst snd] in *.
    rewrite Hb. eexists. split; [reflexivity|].
    cbn [read_members]. rewrite !app_assoc_string.
    rewrite unquote_appendString. cbn [append].
    change (code ":" =? 58)%N with true. cbv iota.
    rewrite unquote_appendString.
    change (code "," =? 125)%N with false.
    change (code "," =? 44)%N with true. cbv iota.
    rewrite Hr. reflexivity.
Qed.

Lemma marshal_members_more (k v : string) (kv : string * Value) (r : Map) :
  marshal_members ((k, VString v) :: kv :: r)
  = match marshal_members (kv :: r) with
    | inr e => inr e
    | inl jr => inl (appendString k ++ ":" ++ appendString v ++ "," ++ jr)%string
    end.
Proof. reflexivity. Qed.

Lemma marshal_members_starts (kvs : list (string * string)) :
  forall body,
    kvs <> [] ->
    marshal_members (strings kvs) = inl body ->
    exists rest, body = String quote rest /\ List.length kvs <= String.length body.
Proof.
  induction kvs as [|[k v] kvs IH]; intros body Hne Hb; [contradiction|].
  destruct kvs as [|kv' kvs].
  - cbn in Hb. inversion Hb; subst. eexists. split; [reflexivity|]. cbn. lia.
  - unfold strings in *. cbn [map fst snd] in Hb.
    rewrite marshal_members_more in Hb.
    destruct (marshal_members _) as [jr|e] eqn:Hj; [|discriminate].
    destruct (IH jr) as (rest & _ & Hl); [discriminate|reflexivity|].
    inversion Hb; subst. eexists. split; [reflexivity|].
    cbn [appendString append String.length].
    cbn [List.length] in *.
    repeat (rewrite !length_app_string; cbn [String.length]). lia.
Qed.

(** Reading back an object of strings written by [Marshal]: the members
    come back in the order written, each key and value coerced to valid
    UTF-8; white space after the object is accepted. *)
Lemma read_object_marshal (kvs : list (string * string)) (ws : string) :
  kvs <> [] ->
  all_space ws = true ->
  exists body,
    marshal_members (strings kvs) = inl body
    /\ read_object ("{" ++ body ++ "}" ++ ws)%string = Some (coerced kvs).
Proof.
  intros Hne Hws.
  destruct (read_members_marshal kvs (List.length kvs) ws Hne (le_n _))
    as (body & Hb & _).
  destruct (marshal_members_starts kvs body Hne Hb) as (rest & Hrest & Hlen).
  exists body. split; [exact Hb|].
  destruct (read_members_marshal kvs (String.length (body ++ "}" ++ ws)%string)
              ws Hne) as (body' & Hb' & Hr).
  { rewrite length_app_string. lia. }
  rewrite Hb in Hb'. inversion Hb'; subst body'.
  cbn [append read_object].
  change (code "{" =? 123)%N with true. cbv iota.
  rewrite Hrest in *. cbn [append].
  change (code quote =? 125)%N with false. cbv iota.
  cbn [append] in Hr. rewrite Hr. rewrite Hws. reflexivity.
Qed.

Import Logx.

(** The entry [output] builds, with its keys in the order [Marshal] writes
    them. *)
Lemma entry_sorted (ts level caller : string) (val : Value) :
  sort_keys
    (map_set callerKey (VString caller)
       (map_set contentKey val
          (map_set levelKey (VString level)
             (map_set timestampKey (VString ts) []))))
  = [(timestampKey, VString ts); (callerKey, VString caller);
     (contentKey, val); (levelKey, VString level)].
Proof. reflexivity. Qed.

(** JSON mode with a string payload: what [output] hands to the writer. *)
Lemma output_json_string (env : Env) (wr : string -> error)
  (level payload : string) (g : Globals) :
  encoding g <> plainEncodingType ->
  output env (Some wr) level (VString payload) g
  = match marshal_members
            (strings [(timestampKey, getTimestamp env g);
                      (callerKey, call_site env);
                      (contentKey, payload); (levelKey, level)]) with
    | inl body => [Wrote (("{" ++ body ++ "}") ++ newline)%string]
    | inr e => [Logged e]
    end.
Proof.
  intros Henc. unfold output.
  destruct (N.eqb_spec (encoding g) plainEncodingType) as [E|_]; [contradiction|].
  unfold writeJson, Marshal, marshal_map, getCaller.
  rewrite entry_sorted. unfold strings. cbn [map fst snd].
  destruct (marshal_members _); reflexivity.
Qed.

Example json_hello :
  output sample_env accepting levelInfo (VString "hello") initial
  = [Wrote ("{" ++ String quote "@timestamp" ++ String quote ":"
            ++ String quote "2024-01-01T00:00:00.000Z" ++ String quote ","
            ++ String quote "caller" ++ String quote ":"
            ++ String quote "logx/main.go:10" ++ String quote ","
            ++ String quote "content" ++ String quote ":"
            ++ String quote "hello" ++ String quote ","
            ++ String quote "level" ++ String quote ":"
            ++ String quote "info" ++ String quote "}" ++ newline)%string]
  /\ Unmarshal
       ("{" ++ String quote "level" ++ String quote ":"
        ++ String quote "info" ++ String quote ","
        ++ String quote "content" ++ String quote ":"
        ++ String quote "hello" ++ String quote "}")%string
     = Some (mkEntry "info" "hello").
Proof. split; reflexivity. Qed.

Example appendString_html :
  appendString "a<b"
  = String quote ("a" ++ String backslash "u003cb" ++ String quote "")%string.
Proof. reflexivity. Qed.

Example byte_ff_invalid :
  ValidString byte_ff = false
  /\ appendString byte_ff
     = String quote (String backslash "ufffd" ++ String quote "")%string
  /\ coerce byte_ff = EncodeRune RuneError
  /\ ValidString (EncodeRune RuneError) = true.
Proof. repeat split. Qed.

(** C8 as stated fails: a string payload that is not valid UTF-8, here the
    single byte 0xFF, is written as the escape of U+FFFD and decodes to the
    three bytes of U+FFFD, not to the original payload. *)
Lemma json_invalid_utf8_not_restored :
  exists data : string,
    output sample_env accepting levelInfo (VString byte_ff) initial = [Wrote data]
    /\ Unmarshal data = Some (mkEntry levelInfo (EncodeRune RuneError))
    /\ Unmarshal data <> Some (mkEntry levelInfo byte_ff).
Proof.
  eexists. split; [reflexivity|]. split; [reflexivity|].
  intros H. vm_compute in H. discriminate H.
Qed.

(** C8, amended: in JSON mode, for a level info or error and a string
    payload, the encoder hands the writer one JSON object followed by a
    newline; the object has the keys [@timestamp], [caller], [content] and
    [level]; decoding it gives back the level and the payload coerced to
    valid UTF-8, which is the payload itself when the payload is valid
    UTF-8. *)
Theorem json_round_trip (env : Env) (wr : string -> error)
  (level payload : string) (g : Globals) :
  encoding g <> plainEncodingType ->
  level = levelInfo \/ level = levelError ->
  exists obj : string,
    output env (Some wr) level (VString payload) g = [Wrote (obj ++ newline)%string]
    /\ read_object obj
       = Some [(timestampKey, coerce (getTimestamp env g));
               (callerKey, coerce (call_site env));
               (contentKey, coerce payload); (levelKey, level)]
    /\ Unmarshal (obj ++ newline)%string = Some (mkEntry level (coerce payload))
    /\ (ValidString payload = true ->
        Unmarshal (obj ++ newline)%string = Some (mkEntry level payload)).
Proof.
  intros Henc Hlevel.
  set (kvs := [(timestampKey, getTimestamp env g); (callerKey, call_site env);
               (contentKey, payload); (levelKey, level)]).
  assert (Hne : kvs <> []) by discriminate.
  destruct (read_object_marshal kvs EmptyString Hne eq_refl) as (body & Hb & Hr0).
  destruct (read_object_marshal kvs newline Hne eq_refl) as (body' & Hb' & Hr1).
  rewrite Hb in Hb'. inversion Hb'; subst body'. clear Hb'.
  assert (Hco : coerced kvs
                = [(timestampKey, coerce (getTimestamp env g));
                   (callerKey, coerce (call_site env));
                   (contentKey, coerce payload); (levelKey, level)]).
  { unfold coerced, kvs. cbn [map fst snd].
    destruct Hlevel as [-> | ->]; reflexivity. }
  exists ("{" ++ body ++ "}")%string.
  rewrite output_json_string by exact Henc. fold kvs. rewrite Hb.
  assert (Hassoc : (("{" ++ body ++ "}") ++ newline = "{" ++ body ++ "}" ++ newline)%string).
  { cbn [append]. rewrite app_assoc_string. reflexivity. }
  assert (Hun : Unmarshal (("{" ++ body ++ "}") ++ newline)%string
                = Some (mkEntry level (coerce payload))).
  { unfold Unmarshal. rewrite Hassoc, Hr1, Hco. reflexivity. }
  split; [reflexivity|]. split.
  - replace ("{" ++ body ++ "}")%string with ("{" ++ body ++ "}" ++ "")%string.
    + rewrite Hr0, Hco. reflexivity.
    + reflexivity.
  - split; [exact Hun|].
    intros Hv. rewrite Hun. unfold coerce.
    rewrite coerce_loop_valid; [reflexivity|lia|exact Hv].
Qed.

Lemma json_round_trip_witness :
  exists obj : string,
    output sample_env accepting levelError (VString "disk full") initial
    = [Wrote (obj ++ newline)%string]
    /\ Unmarshal (obj ++ newline)%string = Some (mkEntry levelError "disk full").
Proof.
  destruct (json_round_trip sample_env (fun _ => None) levelError "disk full"
              initial) as (obj & Ho & _ & _ & Hv).
  - discriminate.
  - right. reflexivity.
  - exists obj. split; [exact Ho|]. apply Hv. reflexivity.
Defined.

End JsonFacts.

(** * Further properties of the sink *)

Module SinkMore.

Import Sink.

Local Open Scope string_scope.
Local Open Scope list_scope.

Lemma written_snoc (ops : list FileOp) (op : FileOp) :
  written (ops ++ [op])
  = written ops ++ match op with OpWrite v => [v] | _ => [] end.
Proof.
  induction ops as [|o ops IH]; simpl.
  - destruct op; reflexivity.
  - destruct o; simpl; rewrite IH; reflexivity.
Qed.

Lemma sync_and_close_keeps (f : File) :
  exists f', fst (sync_and_close (Some f)) = Some f'
             /\ written (f_ops f') = written (f_ops f).
Proof.
  unfold sync_and_close, file_do. cbn [f_sync_err f_close_err f_ops].
  destruct (f_sync_err f); eexists; split; try reflexivity; cbn [f_ops];
    repeat rewrite written_snoc; repeat rewrite app_nil_r; reflexivity.
Qed.

(** One step moves bytes along the path producer, channel, file, or to the
    standard logger, and nowhere else. *)
Lemma step_conserves (ev : Event) (s s' : St) (r : Result) :
  fp (lg s) <> None ->
  step ev s = Some (s', r) ->
  fp (lg s') <> None
  /\ file_contents (lg s') ++ channel (lg s')
     = file_contents (lg s) ++ channel (lg s) ++ accepted [ev] [r]
  /\ stdlog s' = stdlog s ++ rejected [ev] [r].
Proof.
  intros Hfp Hs. destruct s as [l out]. destruct l as [name f ch dn wg once].
  cbn [lg fp] in Hfp. destruct f as [f|]; [clear Hfp|contradiction].
  destruct ev as [p data|p| | |]; unfold step in Hs.
  - unfold Write in Hs. cbn [lg channel done] in Hs. destruct p.
    + destruct (Nat.ltb _ _); [|discriminate]. inversion Hs; subst.
      cbn. split; [discriminate|]. split; [|rewrite app_nil_r; reflexivity].
      reflexivity.
    + destruct dn; [|discriminate]. inversion Hs; subst.
      cbn. split; [discriminate|]. split; [rewrite app_nil_r|]; reflexivity.
  - unfold lift_lg, worker_iter in Hs. cbn [lg waitGroup channel done] in Hs.
    destruct wg as [|wg]; [discriminate|]. destruct p.
    + destruct ch as [|event rest]; [discriminate|]. inversion Hs; subst.
      unfold write, file_contents. cbn. split; [discriminate|].
      rewrite written_snoc, !app_nil_r, <- app_assoc. split; reflexivity.
    + destruct dn; [|discriminate]. inversion Hs; subst.
      cbn. split; [discriminate|]. rewrite !app_nil_r. split; reflexivity.
  - unfold lift_lg, Close_signal in Hs. cbn [lg closeOnce] in Hs.
    destruct once; try discriminate. inversion Hs; subst.
    cbn. split; [discriminate|]. rewrite !app_nil_r. split; reflexivity.
  - unfold lift_close, Close_finish in Hs. cbn [lg closeOnce waitGroup fp] in Hs.
    destruct once; try discriminate. destruct wg; [|discriminate].
    destruct (sync_and_close_keeps f) as (f' & Hf' & Hw).
    destruct (sync_and_close (Some f)) as [fo err]. cbn [fst] in Hf'. subst fo.
    inversion Hs; subst. unfold file_contents. cbn.
    split; [discriminate|]. rewrite Hw, !app_nil_r. split; reflexivity.
  - unfold lift_close, Close_again in Hs. cbn [lg closeOnce] in Hs.
    destruct once; try discriminate. inversion Hs; subst.
    cbn. split; [discriminate|]. rewrite !app_nil_r. split; reflexivity.
Qed.

Lemma accepted_cons (ev : Event) (evs : list Event) (r : Result) (rs : list Result) :
  accepted (ev :: evs) (r :: rs) = accepted [ev] [r] ++ accepted evs rs.
Proof. destruct ev; try reflexivity. destruct r as [n [e|]| |]; reflexivity. Qed.

Lemma rejected_cons (ev : Event) (evs : list Event) (r : Result) (rs : list Result) :
  rejected (ev :: evs) (r :: rs) = rejected [ev] [r] ++ rejected evs rs.
Proof. destruct ev; try reflexivity. destruct r as [n [e|]| |]; reflexivity. Qed.

(** X1: in every interleaving of producers, worker and closers on a sink
    with a file, the bytes in the file followed by the bytes still queued are
    what was there before followed by the data of the writes that returned
    nil, in call order: the worker writes in FIFO order, never twice, and
    drops nothing it took.  The standard logger receives exactly the data of
    the writes that returned an error. *)
Theorem writes_conserved (evs : list Event) :
  forall (s s' : St) (rs : list Result),
    fp (lg s) <> None ->
    run evs s = Some (s', rs) ->
    file_contents (lg s') ++ channel (lg s')
    = file_contents (lg s) ++ channel (lg s) ++ accepted evs rs
    /\ stdlog s' = stdlog s ++ rejected evs rs.
Proof.
  induction evs as [|ev evs IH]; intros s s' rs Hfp Hr; simpl in Hr.
  - inversion Hr; subst. cbn. rewrite !app_nil_r. split; reflexivity.
  - destruct (step ev s) as [[s1 r]|] eqn:Hs; [|discriminate].
    destruct (run evs s1) as [[s2 rs']|] eqn:Hr'; [|discriminate].
    inversion Hr; subst.
    destruct (step_conserves _ _ _ _ Hfp Hs) as (Hfp1 & Hc1 & Ho1).
    destruct (IH _ _ _ Hfp1 Hr') as (Hc2 & Ho2).
    rewrite accepted_cons, rejected_cons. split.
    + rewrite Hc2, app_assoc, Hc1. rewrite <- !app_assoc. reflexivity.
    + rewrite Ho2, Ho1. rewrite <- app_assoc. reflexivity.
Qed.

Lemma writes_conserved_witness :
  fp (lg (mkSt (fresh None None) [])) <> None
  /\ exists s' : St,
       run [EWrite PickFirst "a"; EWrite PickFirst "b"; EWorker PickFirst;
            ECloseSignal; EWrite PickSecond "c"; EWorker PickSecond;
            ECloseFinish]
           (mkSt (fresh None None) [])
       = Some (s', [RWrite 1 None; RWrite 1 None; RNone; RNone;
                    RWrite 0 ErrLogFileClosed; RNone; RClose None])
       /\ file_contents (lg s') ++ channel (lg s') = ["a"; "b"]
       /\ stdlog s' = ["c"].
Proof.
  split; [discriminate|].
  eexists. split; [reflexivity|].
  exact (writes_conserved
           [EWrite PickFirst "a"; EWrite PickFirst "b"; EWorker PickFirst;
            ECloseSignal; EWrite PickSecond "c"; EWorker PickSecond;
            ECloseFinish]
           (mkSt (fresh None None) []) _ _
           ltac:(discriminate) eq_refl).
Defined.

Lemma step_bounded (ev : Event) (s s' : St) (r : Result) :
  List.length (channel (lg s)) <= bufferSize ->
  step ev s = Some (s', r) ->
  List.length (channel (lg s')) <= bufferSize.
Proof.
  intros Hb Hs. destruct ev as [p data|p| | |]; unfold step in Hs.
  - unfold Write in Hs. destruct p.
    + destruct (Nat.ltb_spec (List.length (channel (lg s))) bufferSize);
        [|discriminate].
      inversion Hs; subst. cbn. rewrite length_app. cbn. lia.
    + destruct (done (lg s)); [|discriminate]. inversion Hs; subst. exact Hb.
  - unfold lift_lg, worker_iter in Hs.
    destruct (waitGroup (lg s)); [discriminate|]. destruct p.
    + destruct (channel (lg s)) as [|event rest] eqn:Hc; [discriminate|].
      inversion Hs; subst. unfold write. cbn in *.
      destruct (fp (lg s)); cbn; lia.
    + destruct (done (lg s)); [|discriminate]. inversion Hs; subst. exact Hb.
  - unfold lift_lg, Close_signal in Hs.
    destruct (closeOnce (lg s)); try discriminate. inversion Hs; subst. exact Hb.
  - unfold lift_close, Close_finish in Hs.
    destruct (closeOnce (lg s)); try discriminate.
    destruct (waitGroup (lg s)); [|discriminate].
    destruct (sync_and_close (fp (lg s))). inversion Hs; subst. exact Hb.
  - unfold lift_close, Close_again in Hs.
    destruct (closeOnce (lg s)); try discriminate. inversion Hs; subst. exact Hb.
Qed.

(** X2: the channel never holds more than [bufferSize] = 100 items, however
    many writes are attempted: a send into a full channel cannot proceed. *)
Theorem queue_bounded (evs : list Event) :
  forall (s s' : St) (rs : list Result),
    List.length (channel (lg s)) <= bufferSize ->
    run evs s = Some (s', rs) ->
    List.length (channel (lg s')) <= bufferSize.
Proof.
  induction evs as [|ev evs IH]; intros s s' rs Hb Hr; simpl in Hr.
  - inversion Hr; subst. exact Hb.
  - destruct (step ev s) as [[s1 r]|] eqn:Hs; [|discriminate].
    destruct (run evs s1) as [[s2 rs']|] eqn:Hr'; [|discriminate].
    inversion Hr; subst.
    exact (IH _ _ _ (step_bounded _ _ _ _ Hb Hs) Hr').
Qed.

Lemma queue_bounded_witness :
  List.length (channel (lg (mkSt (fresh None None) []))) <= bufferSize
  /\ List.length
       (channel (lg (mkSt (set_channel ["a"; "b"] (fresh None None)) [])))
     <= bufferSize.
Proof.
  split; [cbn; unfold bufferSize; lia|].
  exact (queue_bounded [EWrite PickFirst "a"; EWrite PickFirst "b"]
           (mkSt (fresh None None) []) _ _
           ltac:(cbn; unfold bufferSize; lia) eq_refl).
Defined.

(** X3: as long as no [Close] has been called, no [Write] returns
    [ErrLogFileClosed] and nothing is printed on the standard logger: every
    write that returns has enqueued its bytes. *)
Theorem no_rejection_before_close (evs : list Event) :
  forall (s s' : St) (rs : list Result),
    done (lg s) = false ->
    count_signal evs = 0 ->
    run evs s = Some (s', rs) ->
    done (lg s') = false /\ rejected evs rs = [] /\ stdlog s' = stdlog s.
Proof.
  induction evs as [|ev evs IH]; intros s s' rs Hd Hc Hr; simpl in Hr.
  - inversion Hr; subst. auto.
  - destruct (step ev s) as [[s1 r]|] eqn:Hs; [|discriminate].
    destruct (run evs s1) as [[s2 rs']|] eqn:Hr'; [|discriminate].
    inversion Hr; subst.
    assert (H1 : done (lg s1) = false /\ stdlog s1 = stdlog s
                 /\ rejected [ev] [r] = [] /\ count_signal evs = 0).
    { destruct ev as [p data|p| | |]; unfold step in Hs; cbn in Hc.
      - unfold Write in Hs. rewrite Hd in Hs. destruct p; [|discriminate].
        destruct (Nat.ltb _ _); [|discriminate]. inversion Hs; subst. cbn. auto.
      - unfold lift_lg, worker_iter in Hs. rewrite Hd in Hs.
        destruct (waitGroup (lg s)); [discriminate|].
        destruct p; [|discriminate].
        destruct (channel (lg s)); [discriminate|]. inversion Hs; subst.
        unfold write. cbn. destruct (fp (lg s)); cbn; auto.
      - discriminate.
      - unfold lift_close, Close_finish in Hs.
        destruct (closeOnce (lg s)); try discriminate.
        destruct (waitGroup (lg s)); [|discriminate].
        destruct (sync_and_close (fp (lg s))). inversion Hs; subst. cbn. auto.
      - unfold lift_close, Close_again in Hs.
        destruct (closeOnce (lg s)); try discriminate.
        inversion Hs; subst. cbn. auto. }
    destruct H1 as (Hd1 & Ho1 & Hrej & Hc').
    destruct (IH _ _ _ Hd1 Hc' Hr') as (Hd2 & Hr2 & Ho2).
    rewrite rejected_cons, Hrej, Hr2, Ho2, Ho1. auto.
Qed.

Lemma no_rejection_before_close_witness :
  done (lg (mkSt (fresh None None) [])) = false
  /\ count_signal [EWrite PickFirst "a"; EWorker PickFirst] = 0
  /\ stdlog (mkSt (mkLogger "logs/logx.log"
                     (Some (mkFile None None [OpWrite "a"])) [] false 1 OnceIdle)
               [])
     = [].
Proof.
  split; [reflexivity|]. split; [reflexivity|].
  exact (proj2 (proj2 (no_rejection_before_close
                         [EWrite PickFirst "a"; EWorker PickFirst]
                         (mkSt (fresh None None) []) _ _
                         eq_refl eq_refl eq_refl))).
Defined.

(** X4: [Close] on an open sink writes a prefix of the queue and abandons
    the rest: with the worker taking [k] more items before it sees [done],
    the file gains the [k] oldest queued records in order and the other
    records stay in the channel, unread; with [k] the whole queue, the file
    gains every queued record and the channel is left empty. *)
Theorem Close_writes_prefix (k : nat) (name : string) (f : File)
  (ch : list string) :
  k <= List.length ch ->
  exists l' : DefaultLogger,
    Close k (mkLogger name (Some f) ch false 1 OnceIdle)
    = Some (l', first_close_result f)
    /\ file_contents l' = written (f_ops f) ++ firstn k ch
    /\ channel l' = skipn k ch
    /\ (k = List.length ch ->
        file_contents l' = written (f_ops f) ++ ch /\ channel l' = []).
Proof.
  intros Hk. eexists. split; [apply SinkFacts.Close_first; exact Hk|].
  unfold file_contents. cbn [fp f_ops channel].
  assert (Hw : written (f_ops f ++ map OpWrite (firstn k ch) ++ close_ops f)
               = written (f_ops f) ++ firstn k ch).
  { rewrite !SinkFacts.written_app, SinkFacts.written_map_OpWrite.
    unfold close_ops. destruct (f_sync_err f); cbn; rewrite app_nil_r;
      reflexivity. }
  rewrite Hw. split; [reflexivity|]. split; [reflexivity|].
  intros ->. rewrite firstn_all, skipn_all. split; reflexivity.
Qed.

Lemma Close_writes_prefix_witness :
  1 <= List.length ["a"; "b"; "c"]
  /\ exists l' : DefaultLogger,
       Close 1 (set_channel ["a"; "b"; "c"] (fresh None None)) = Some (l', None)
       /\ file_contents l' = ["a"]
       /\ channel l' = ["b"; "c"].
Proof.
  split; [cbn; lia|].
  destruct (Close_writes_prefix 1 "logs/logx.log" (mkFile None None [])
              ["a"; "b"; "c"] ltac:(cbn; lia)) as (l' & H1 & H2 & H3 & _).
  exists l'. repeat split; assumption.
Defined.

(** X20: backpressure.  On an open sink whose channel is full a [Write]
    cannot proceed through either case of its [select]; as soon as the
    worker has taken one item, written it to the file, the same [Write]
    enqueues and returns the full length with a nil error. *)
Theorem full_queue_blocks_until_drained (data : string) (s : St) :
  List.length (channel (lg s)) = bufferSize ->
  done (lg s) = false ->
  waitGroup (lg s) = 1 ->
  Write PickFirst data s = None
  /\ Write PickSecond data s = None
  /\ exists (l1 : DefaultLogger) (s2 : St),
       worker_iter PickFirst (lg s) = Some l1
       /\ file_contents l1
          = match fp (lg s) with
            | Some _ => file_contents (lg s) ++ firstn 1 (channel (lg s))
            | None => []
            end
       /\ Write PickFirst data (mkSt l1 (stdlog s))
          = Some (s2, (String.length data, nil_error))
       /\ channel (lg s2) = skipn 1 (channel (lg s)) ++ [data].
Proof.
  intros Hlen Hd Hw.
  split; [unfold Write; rewrite Hlen; reflexivity|].
  split; [unfold Write; rewrite Hd; reflexivity|].
  destruct s as [l out]. destruct l as [name f ch dn wg once].
  cbn [lg channel done waitGroup fp stdlog] in *. subst dn wg.
  destruct ch as [|event rest]; [discriminate Hlen|].
  cbn [List.length] in Hlen.
  assert (Hch : channel (write event (mkLogger name f rest false 1 once)) = rest).
  { unfold write. destruct f; reflexivity. }
  exists (write event (mkLogger name f rest false 1 once)).
  exists (with_lg (set_channel (rest ++ [data]))
            (mkSt (write event (mkLogger name f rest false 1 once)) out)).
  split; [reflexivity|]. split.
  - unfold write, file_contents. destruct f as [f|]; [|reflexivity].
    cbn [fp set_fp file_do f_ops firstn]. rewrite written_snoc. reflexivity.
  - unfold Write. cbn [lg]. rewrite Hch.
    destruct (Nat.ltb_spec (List.length rest) bufferSize); [|lia].
    split; [reflexivity|]. reflexivity.
Qed.

Lemma full_queue_blocks_until_drained_witness :
  Write PickFirst "x"
    (mkSt (set_channel (repeat "r" 100) (fresh None None)) [])
  = None
  /\ Write PickSecond "x"
       (mkSt (set_channel (repeat "r" 100) (fresh None None)) [])
     = None.
Proof.
  destruct (full_queue_blocks_until_drained "x"
              (mkSt (set_channel (repeat "r" 100) (fresh None None)) [])
              eq_refl eq_refl eq_refl) as (H1 & H2 & _).
  split; assumption.
Defined.

End SinkMore.

(** * Further properties of the registry, the filter and the set-up *)

Module LogxMore.

Import Logx.

Local Open Scope string_scope.
Local Open Scope list_scope.

(** X5: [Swap] answers the writer that was in the slot and puts the new one
    there; storing the answer back restores the package state exactly (the
    pattern [old := writer.Swap(w); defer writer.Store(old)]). *)
Theorem Swap_Store_restores (v : option Writer) (g : Globals) :
  fst (Swap v g) = writer g
  /\ writer (snd (Swap v g)) = v
  /\ Store (fst (Swap v g)) (snd (Swap v g)) = g.
Proof. destruct g; repeat split. Qed.


(** X7: the package-level [Close] called twice in a row: the second call
    finds the slot empty, closes nothing and returns nil, so a writer is
    closed at most once through the registry. *)
Theorem Close_twice (env : Env) (g : Globals) :
  Close env (snd (Close env g)) = (nil_error, snd (Close env g))
  /\ closed (snd (Close env g))
     = closed g ++ match writer g with Some w => [w] | None => [] end.
Proof.
  unfold Close, Swap. destruct g as [o l e wc sep tf [w|] c a i cl]; cbn.
  - split; reflexivity.
  - rewrite app_nil_r. split; reflexivity.
Qed.

(** X8: a threshold above [ErrorLevel] silences the package: neither [Info]
    nor [Error] makes a leveled write. *)
Theorem level_above_error_silences (env : Env) (level : N) (msg : string)
  (g : Globals) :
  (ErrorLevel < level)%N ->
  Info msg (SetLevel level g) = Some (snd (getWriter (SetLevel level g)))
  /\ Error env msg (SetLevel level g) = Some (snd (getWriter (SetLevel level g)))
  /\ invoked (snd (getWriter (SetLevel level g))) = invoked g.
Proof.
  intros Hl.
  pose proof (LogxFacts.getWriter_keeps (SetLevel level g)) as [Hk Hi].
  unfold Info, Error.
  destruct (getWriter (SetLevel level g)) as [w g1]. cbn [snd] in *.
  unfold infoTextSync, errorTextSync, shallLog. rewrite Hk. cbn [logLevel SetLevel set_logLevel].
  unfold ErrorLevel, InfoLevel in *.
  destruct (N.leb_spec level 0); [lia|].
  destruct (N.leb_spec level 1); [lia|].
  repeat split. exact Hi.
Qed.

Lemma level_above_error_silences_witness :
  (ErrorLevel < 2)%N
  /\ invoked (snd (getWriter (SetLevel 2 initial))) = invoked initial.
Proof.
  split; [reflexivity|].
  exact (proj2 (proj2 (level_above_error_silences sample_env 2 "lost" initial
                         eq_refl))).
Defined.

(** The package variables when [Load] reaches [setupWriter]. *)
Lemma Load_unfold (env : Env) (c : LogConf) (g : Globals) :
  setupOnce g = false ->
  Load env c g
  = (fst (setupWriter env c
            (setupEncoding c (setupWithColor c (setupPlainEncodingSep c
               (setupTimeFormat c (setupPath c (setupLogLevel c
                  (set_conf c g)))))))),
     set_setupOnce true
       (snd (setupWriter env c
               (setupEncoding c (setupWithColor c (setupPlainEncodingSep c
                  (setupTimeFormat c (setupPath c (setupLogLevel c
                     (set_conf c g)))))))))).
Proof.
  intros Hg. unfold Load. rewrite Hg.
  destruct (setupWriter env c _); reflexivity.
Qed.

Ltac split_ifs :=
  repeat match goal with
  | |- context [if ?b then _ else _] => destruct b eqn:?
  | |- context [match open_log ?e ?p with _ => _ end] => destruct (open_log e p) eqn:?
  end.

(** X9: what the first [Load] leaves in the package variables: the
    configuration itself; the time format and the separator of the
    configuration when they are not empty, the previous ones otherwise;
    colour on when it was on before or the configuration asks for it (a
    configuration cannot turn it off); plain encoding exactly for the
    encoding named plain, JSON for any other name. *)
Theorem Load_settings (env : Env) (c : LogConf) (g : Globals) :
  setupOnce g = false ->
  conf (snd (Load env c g)) = c
  /\ timeFormat (snd (Load env c g))
     = match TimeFormat c with EmptyString => timeFormat g | _ => TimeFormat c end
  /\ plainEncodingSep (snd (Load env c g))
     = match PlainEncodingSep c with
       | EmptyString => plainEncodingSep g
       | _ => PlainEncodingSep c
       end
  /\ withColor (snd (Load env c g)) = withColor g || WithColor c
  /\ encoding (snd (Load env c g))
     = (if String.eqb (Encoding c) plainEncoding
        then plainEncodingType else jsonEncodingType)
  /\ setupOnce (snd (Load env c g)) = true.
Proof.
  intros Hg. rewrite (Load_unfold env c g Hg). cbn [snd].
  unfold setupWriter, setupWithFiles, newFileWriter, setupWithConsole,
    newConsoleWriter, SetWriter, Store, setupEncoding, setupWithColor,
    setupPlainEncodingSep, setupTimeFormat, setupPath, setupLogLevel, SetLevel.
  destruct (TimeFormat c) as [|t0 t]; destruct (PlainEncodingSep c) as [|p0 p];
    destruct (WithColor c); destruct (withColor g) eqn:Hw;
    cbn [String.length Nat.ltb Nat.leb]; split_ifs; cbn;
    repeat split; try reflexivity; try assumption; congruence.
Qed.

Lemma Load_settings_witness :
  setupOnce initial = false
  /\ plainEncodingSep
       (snd (Load sample_env (mkConf "console" "plain" "" true "" "" "info")
               initial))
     = plainEncodingSep initial
  /\ withColor
       (snd (Load sample_env (mkConf "console" "plain" "" true "" "" "info")
               initial))
     = true.
Proof.
  split; [reflexivity|].
  destruct (Load_settings sample_env
              (mkConf "console" "plain" "" true "" "" "info") initial eq_refl)
    as (_ & _ & Hs & Hc & _).
  split; [exact Hs|exact Hc].
Defined.

(** X10: the writer the first [Load] installs.  In any mode but file it is a
    console writer of a new identity, replacing whatever was in the slot,
    and [Load] returns nil.  In file mode, when the log file opens, it is a
    file writer on [<dir>/logx.log], [<dir>] being the configured path, or
    logs when the path is empty. *)
Theorem Load_installs_writer (env : Env) (c : LogConf) (g : Globals) :
  setupOnce g = false ->
  (String.eqb (Mode c) fileMode = false ->
   fst (Load env c g) = nil_error
   /\ writer (snd (Load env c g)) = Some (ConsoleWriter (allocs g)))
  /\ (String.eqb (Mode c) fileMode = true ->
      open_log env (path_Join env (log_dir c) "logx" ++ ".log") = None ->
      fst (Load env c g) = nil_error
      /\ writer (snd (Load env c g))
         = Some (FileWriter (allocs g)
                   (path_Join env (log_dir c) "logx" ++ ".log"))).
Proof.
  intros Hg. rewrite (Load_unfold env c g Hg). cbn [fst snd].
  unfold setupWriter. split; intros Hm; rewrite Hm.
  - unfold setupWithConsole, newConsoleWriter, SetWriter, Store, setupEncoding,
      setupWithColor, setupPlainEncodingSep, setupTimeFormat, setupPath,
      setupLogLevel, SetLevel.
    split_ifs; cbn; split; reflexivity.
  - intros Ho. unfold setupWithFiles, newFileWriter. fold (log_dir c).
    rewrite Ho.
    unfold SetWriter, Store, setupEncoding,
      setupWithColor, setupPlainEncodingSep, setupTimeFormat, setupPath,
      setupLogLevel, SetLevel.
    split_ifs; cbn; split; reflexivity.
Qed.

Lemma Load_installs_writer_witness :
  setupOnce (SetWriter (Some (OtherWriter 7)) initial) = false
  /\ writer (snd (Load sample_env (mkConf "console" "json" "" false "" "" "info")
                    (SetWriter (Some (OtherWriter 7)) initial)))
     = Some (ConsoleWriter 0)
  /\ writer (snd (Load sample_env (mkConf "file" "json" "" false "" "" "info")
                    initial))
     = Some (FileWriter 0 "logs/logx.log").
Proof.
  split; [reflexivity|]. split.
  - apply (proj1 (Load_installs_writer sample_env
                    (mkConf "console" "json" "" false "" "" "info")
                    (SetWriter (Some (OtherWriter 7)) initial) eq_refl)).
    reflexivity.
  - apply (proj2 (Load_installs_writer sample_env
                    (mkConf "file" "json" "" false "" "" "info")
                    initial eq_refl)); reflexivity.
Defined.

(** X11: when the log file cannot be opened, the first [Load] returns the
    error and leaves the writer slot as it was, but the Once is used up: a
    second [Load], with any configuration, returns nil and installs
    nothing.  A failed set-up cannot be retried. *)
Theorem Load_failure_not_retried (env : Env) (c c2 : LogConf) (g : Globals)
  (e : string) :
  setupOnce g = false ->
  String.eqb (Mode c) fileMode = true ->
  open_log env (path_Join env (log_dir c) "logx" ++ ".log") = Some e ->
  fst (Load env c g) = Some e
  /\ writer (snd (Load env c g)) = writer g
  /\ Load env c2 (snd (Load env c g)) = (nil_error, snd (Load env c g)).
Proof.
  intros Hg Hm Ho. rewrite (Load_unfold env c g Hg). cbn [fst snd].
  unfold setupWriter. rewrite Hm.
  unfold setupWithFiles, newFileWriter. fold (log_dir c). rewrite Ho.
  cbn [fst snd]. repeat split.
  unfold setupEncoding, setupWithColor, setupPlainEncodingSep, setupTimeFormat,
    setupPath, setupLogLevel, SetLevel.
  split_ifs; reflexivity.
Qed.

Lemma Load_failure_not_retried_witness :
  fst (Load no_disk_env (mkConf "file" "json" "" false "" "" "info") initial)
  = Some "permission denied"
  /\ Load sample_env (mkConf "console" "json" "" false "" "" "info")
       (snd (Load no_disk_env (mkConf "file" "json" "" false "" "" "info")
               initial))
     = (None,
        snd (Load no_disk_env (mkConf "file" "json" "" false "" "" "info")
               initial)).
Proof.
  split.
  - apply (Load_failure_not_retried no_disk_env
             (mkConf "file" "json" "" false "" "" "info")
             (mkConf "console" "json" "" false "" "" "info") initial
             "permission denied"); reflexivity.
  - reflexivity.
Defined.

(** X12: creating a named file logger applies the level of the stored
    configuration again, whether the file opens or not: a threshold set with
    [SetLevel] after a [Load] whose configuration says error is back at
    error once [NewFileLogger] has run. *)
Theorem NewFileLogger_resets_level (env : Env) (c : LogConf) (name : string)
  (level : N) (g : Globals) :
  setupOnce g = false ->
  Level c = levelError ->
  logLevel (snd (NewFileLogger env name (SetLevel level (snd (Load env c g)))))
  = ErrorLevel.
Proof.
  intros Hg Hl.
  destruct (LogxFacts.Load_first env c g Hg) as (_ & Hc & _).
  unfold NewFileLogger, newFileWriter.
  cbn [conf SetLevel set_logLevel]. rewrite Hc.
  unfold setupLogLevel. rewrite Hl. cbn [String.eqb Ascii.eqb Bool.eqb levelError levelInfo].
  destruct (open_log env _); reflexivity.
Qed.

Lemma NewFileLogger_resets_level_witness :
  setupOnce initial = false
  /\ logLevel
       (snd (NewFileLogger sample_env "audit"
               (SetLevel InfoLevel
                  (snd (Load sample_env
                          (mkConf "console" "json" "" false "" "" "error")
                          initial)))))
     = ErrorLevel.
Proof.
  split; [reflexivity|].
  exact (NewFileLogger_resets_level sample_env
           (mkConf "console" "json" "" false "" "" "error") "audit" InfoLevel
           initial eq_refl eq_refl).
Defined.

(** X13: a named file logger writes to its own file, outside the
    registry: [NewFileLogger] on a log file that opens answers a logger over
    a new file writer on [<dir>/<name>.log] and leaves the registry's slot
    as it is; an [Error] on that logger, when the threshold lets error
    pass, reaches that file writer with the message and the stack. *)
Theorem named_logger_own_file (env : Env) (name : string) (g : Globals) :
  open_log env (path_Join env (log_dir (conf g)) name ++ ".log") = None ->
  exists (l : logger) (g1 : Globals),
    NewFileLogger env name g = (Some l, nil_error, g1)
    /\ lw l = FileWriter (allocs g)
                (path_Join env (log_dir (conf g)) name ++ ".log")
    /\ writer g1 = writer g
    /\ (forall msg,
          shallLog ErrorLevel g1 = true ->
          logger_Error env l msg g1
          = Some (add_invoked
                    (mkCall (lw l) levelError
                       (VString (msg ++ newline ++ debug_Stack env)%string))
                    g1)).
Proof.
  intros Ho. unfold NewFileLogger, newFileWriter. fold (log_dir (conf g)).
  rewrite Ho. eexists. eexists. split; [reflexivity|].
  split; [unfold setupLogLevel, SetLevel; split_ifs; reflexivity|].
  split; [unfold setupLogLevel, SetLevel; split_ifs; reflexivity|].
  intros msg Hs. unfold logger_Error, errorTextSync. rewrite Hs. reflexivity.
Qed.

Lemma named_logger_own_file_witness :
  exists (l : logger) (g1 : Globals),
    NewFileLogger sample_env "audit" initial = (Some l, nil_error, g1)
    /\ lw l = FileWriter 0 "logs/audit.log"
    /\ writer g1 = None.
Proof.
  destruct (named_logger_own_file sample_env "audit" initial eq_refl)
    as (l & g1 & H1 & H2 & H3 & _).
  exists l, g1. repeat split; assumption.
Defined.

End LogxMore.

(** * Properties of the call site *)

Module CallerFacts.

Import Caller.

Local Open Scope string_scope.

Lemma count_byte_app (c : ascii) (a b : string) :
  count_byte c (a ++ b) = count_byte c a + count_byte c b.
Proof. induction a as [|x a IH]; cbn; [reflexivity|]. rewrite IH. lia. Qed.

Lemma take_app_length (a b : string) :
  Json.take (String.length a) (a ++ b) = a.
Proof. induction a as [|x a IH]; cbn; [destruct b; reflexivity|]. rewrite IH. reflexivity. Qed.

Lemma drop_app_length (a b : string) :
  Json.drop (String.length a) (a ++ b) = b.
Proof. induction a as [|x a IH]; cbn; [destruct b; reflexivity|]. exact IH. Qed.

(** [LastIndexByte] finds the last occurrence: nothing after it, or no
    occurrence at all. *)
Lemma LastIndexByte_spec (c : ascii) (s : string) :
  (LastIndexByte s c = (-1)%Z /\ count_byte c s = 0)
  \/ (exists a b,
        s = a ++ String c b
        /\ LastIndexByte s c = Z.of_nat (String.length a)
        /\ count_byte c b = 0).
Proof.
  induction s as [|x s IH]; [left; split; reflexivity|].
  cbn [LastIndexByte count_byte].
  destruct IH as [[Hn Hc]|(a & b & Hs & Hi & Hc)].
  - rewrite Hn. cbn. destruct (Ascii.eqb_spec x c) as [->|Hx].
    + right. exists "", s. cbn. repeat split. exact Hc.
    + left. split; [reflexivity|]. cbn. exact Hc.
  - right. rewrite Hi. exists (String x a), b.
    destruct (Z.leb_spec 0 (Z.of_nat (String.length a))); [|lia].
    subst s. cbn [append String.length]. repeat split; [lia|exact Hc].
Qed.

(** X19: [prettyCaller] answers a suffix of the file path followed by a
    colon and the line in decimal.  The suffix holds at most one slash: it
    is the whole path when the path has fewer than two slashes, and
    otherwise what follows the last slash but one, so the last directory
    and the file name. *)
Theorem prettyCaller_last_two (file : string) (line : Z) :
  exists pre part,
    file = pre ++ part
    /\ prettyCaller file line
       = part ++ ":" ++ NilZero.string_of_int (Z.to_int line)
    /\ count_byte slash part <= 1
    /\ (pre = ""
        \/ (count_byte slash part = 1 /\ exists d, pre = d ++ "/"))
    /\ (count_byte slash file <= 1 -> pre = "").
Proof.
  unfold prettyCaller.
  destruct (LastIndexByte_spec slash file) as [[Hn Hc]|(a & b & Hs & Hi & Hc)].
  - rewrite Hn. cbn. exists "", file. cbn. repeat split; auto. lia.
  - rewrite Hi. destruct (Z.ltb_spec (Z.of_nat (String.length a)) 0); [lia|].
    rewrite Nat2Z.id. subst file. rewrite take_app_length.
    destruct (LastIndexByte_spec slash a) as [[Hn2 Hc2]|(a2 & b2 & Hs2 & Hi2 & Hc2)].
    + rewrite Hn2. cbn [Z.ltb Z.compare]. exists "", (a ++ String slash b).
      assert (Hcount : count_byte slash (a ++ String slash b) = 1).
      { rewrite count_byte_app. cbn. rewrite Hc2, Hc. reflexivity. }
      cbn [append]. repeat split; auto. lia.
    + rewrite Hi2.
      destruct (Z.ltb_spec (Z.of_nat (String.length a2)) 0); [lia|].
      replace (Z.to_nat (Z.of_nat (String.length a2) + 1))
        with (String.length (a2 ++ "/")).
      2:{ rewrite JsonFacts.length_app_string. cbn. lia. }
      subst a.
      assert (Hfile : (a2 ++ String slash b2) ++ String slash b
                      = (a2 ++ "/") ++ (b2 ++ String slash b)).
      { rewrite !JsonFacts.app_assoc_string. reflexivity. }
      rewrite Hfile, drop_app_length.
      exists (a2 ++ "/"), (b2 ++ String slash b).
      assert (Hcount : count_byte slash (b2 ++ String slash b) = 1).
      { rewrite count_byte_app. cbn. rewrite Hc2, Hc. reflexivity. }
      split; [reflexivity|]. split; [reflexivity|]. split; [lia|].
      split; [right; split; [exact Hcount|exists a2; reflexivity]|].
      intros Hle. exfalso.
      rewrite count_byte_app, count_byte_app, Hcount in Hle. cbn in Hle. lia.
Qed.

Example prettyCaller_paths :
  prettyCaller "/home/dev/go/src/logx/logs.go" 120 = "logx/logs.go:120"
  /\ prettyCaller "logx/logs.go" 7 = "logx/logs.go:7"
  /\ prettyCaller "main.go" 1 = "main.go:1"
  /\ getCaller None = "".
Proof. repeat split. Qed.

End CallerFacts.

(** * Further properties of the encoders *)

Module EncoderMore.

Import Json Logx.

Local Open Scope string_scope.
Local Open Scope list_scope.


(** The entry of [output] when its payload encodes to [j]. *)
Lemma marshal_entry (ts level caller j : string) (val : Value) :
  marshal_value val = inl j ->
  marshal_map
    (map_set callerKey (VString caller)
       (map_set contentKey val
          (map_set levelKey (VString level)
             (map_set timestampKey (VString ts) []))))
  = inl ("{" ++ appendString timestampKey ++ ":" ++ appendString ts
         ++ "," ++ appendString callerKey ++ ":" ++ appendString caller
         ++ "," ++ appendString contentKey ++ ":" ++ j
         ++ "," ++ appendString levelKey ++ ":" ++ appendString level
         ++ "}")%string.
Proof.
  intros Hj. unfold marshal_map. rewrite JsonFacts.entry_sorted.
  cbn [marshal_members marshal_value]. rewrite Hj.
  rewrite !JsonFacts.app_assoc_string. reflexivity.
Qed.

Lemma marshal_entry_fails (ts level caller e : string) (val : Value) :
  marshal_value val = inr e ->
  marshal_map
    (map_set callerKey (VString caller)
       (map_set contentKey val
          (map_set levelKey (VString level)
             (map_set timestampKey (VString ts) []))))
  = inr e.
Proof.
  intros He. unfold marshal_map. rewrite JsonFacts.entry_sorted.
  cbn [marshal_members marshal_value]. rewrite He. reflexivity.
Qed.

(** X15: in JSON mode a payload that JSON cannot encode produces no bytes
    for the writer, whatever the writer is: the encoding error is printed on
    the standard logger and the call returns. *)
Theorem json_unserialisable_logged (env : Env) (w : IoWriter) (level e : string)
  (val : Value) (g : Globals) :
  encoding g <> plainEncodingType ->
  marshal_value val = inr e ->
  output env w level val g = [Logged e].
Proof.
  intros Henc He. unfold output.
  destruct (N.eqb_spec (encoding g) plainEncodingType); [contradiction|].
  unfold writeJson, Marshal. rewrite (marshal_entry_fails _ _ _ e val He).
  reflexivity.
Qed.

Lemma json_unserialisable_logged_witness :
  output sample_env accepting levelError a_channel initial
  = [Logged "json: unsupported type: chan int"].
Proof.
  apply (json_unserialisable_logged sample_env accepting levelError
           "json: unsupported type: chan int" a_channel initial);
    [discriminate|reflexivity].
Defined.

(** What [output] writes in JSON mode for a payload that encodes. *)
Lemma output_json_value (env : Env) (wr : string -> error) (level j : string)
  (val : Value) (g : Globals) :
  encoding g <> plainEncodingType ->
  marshal_value val = inl j ->
  output env (Some wr) level val g
  = [Wrote (json_line (getTimestamp env g) level j (call_site env))].
Proof.
  intros Henc Hj. unfold output.
  destruct (N.eqb_spec (encoding g) plainEncodingType); [contradiction|].
  unfold writeJson, Marshal, getCaller.
  rewrite (marshal_entry _ _ _ j val Hj). unfold json_line.
  rewrite !JsonFacts.app_assoc_string. reflexivity.
Qed.

(** X16: in JSON mode, for every payload that encodes to the JSON text [j]
    and every non-nil writer, [output] makes one write: the object with the
    keys [@timestamp], [caller], [content], [level] in this order, the
    payload's JSON text as it is under [content], and one newline.  What the
    writer answers is ignored: a failed write is not reported. *)
Theorem json_wire_format (env : Env) (wr : string -> error) (level j : string)
  (val : Value) (g : Globals) :
  encoding g <> plainEncodingType ->
  marshal_value val = inl j ->
  output env (Some wr) level val g
  = [Wrote (json_line (getTimestamp env g) level j (call_site env))].
Proof. apply output_json_value. Qed.

Lemma json_wire_format_witness :
  output sample_env (Some (fun _ => Some "disk full")) levelInfo forty_two initial
  = [Wrote (json_line "2024-01-01T00:00:00.000Z" levelInfo "42"
              "logx/main.go:10")].
Proof.
  apply (json_wire_format sample_env (fun _ => Some "disk full") levelInfo "42"
           forty_two initial); [discriminate|reflexivity].
Defined.

(** X17: in plain mode, a payload that is no string, error or Stringer and
    that encodes to the JSON text [j] is written with the encoder's newline
    after [j]: the bytes are timestamp, level and [j], a newline, then the
    separator, the caller field and the final newline, so the record takes
    two lines. *)
Theorem plain_value_two_lines (env : Env) (wr : string -> error)
  (level j : string) (val : Value) (g : Globals) :
  encoding g = plainEncodingType ->
  text_message val = None ->
  marshal_value val = inl j ->
  let level' := if withColor g then wrapLevelWithColor env level else level in
  let data := (getTimestamp env g ++ plainEncodingSep g ++ level'
               ++ plainEncodingSep g ++ j ++ newline
               ++ plainEncodingSep g ++ "caller=" ++ call_site env ++ newline)%string in
  output env (Some wr) level val g
  = Wrote data :: match wr data with Some e => [Logged e] | None => [] end.
Proof.
  intros Henc Hm Hj level' data. unfold output. rewrite Henc.
  change (plainEncodingType =? plainEncodingType)%N with true. cbv iota.
  rewrite PlainFacts.writePlainAny_chain. cbv zeta. rewrite Hm.
  rewrite (PlainFacts.writePlainValue_line env (Some wr) _ j val g Hj).
  unfold flush_buf, plain_line. fold level'.
  rewrite !JsonFacts.app_assoc_string. fold data.
  destruct (wr data); reflexivity.
Qed.

Lemma plain_value_two_lines_witness :
  output sample_env accepting levelInfo forty_two plain_globals
  = [Wrote ("2024-01-01T00:00:00.000Z|info|42" ++ newline
            ++ "|caller=logx/main.go:10" ++ newline)%string].
Proof.
  apply (plain_value_two_lines sample_env (fun _ => None) levelInfo "42"
           forty_two plain_globals); reflexivity.
Defined.

Lemma no_control_app (a b : string) :
  no_control (a ++ b) = no_control a && no_control b.
Proof.
  induction a as [|x a IH]; cbn; [reflexivity|]. rewrite IH.
  rewrite andb_assoc. reflexivity.
Qed.

Lemma ascii_printable (b : ascii) :
  (code b < 0x80)%N ->
  no_control (if htmlSafe b then String b EmptyString else escape_ascii b) = true.
Proof.
  destruct b as [[] [] [] [] [] [] [] []]; intros H;
    first [discriminate H | reflexivity].
Qed.

Lemma rune_printable (s : string) (r : N) (n : nat) :
  rune_at s r n ->
  (forall c t, s = String c t -> (0x80 <= code c)%N) ->
  no_control (take n s) = true.
Proof.
  intros H Hhigh.
  destruct H as [c0 t0 H0|c0 c1 t0 H0 H1|c0 c1 c2 t0 H0 H1 H2
                |c0 c1 c2 c3 t0 H0 H1 H2 H3];
    try (apply JsonFacts.second_ok_spec in H1; destruct H1 as (H1 & _));
    pose proof (Hhigh _ _ eq_refl) as Hc;
    cbn [take no_control];
    repeat match goal with
    | |- context [N.leb ?a ?b] => destruct (N.leb_spec a b); try lia
    end; reflexivity.
Qed.

Lemma appendString_loop_printable (n : nat) :
  forall s, no_control (appendString_loop n s) = true.
Proof.
  induction n as [|n IH]; intros s; [reflexivity|].
  destruct s as [|b rest]; [reflexivity|].
  cbn [appendString_loop].
  destruct (N.ltb_spec (code b) RuneSelf) as [Hb|Hb].
  - rewrite no_control_app, ascii_printable, IH by exact Hb. reflexivity.
  - destruct (invalid_rune (DecodeRune (String b rest))) eqn:Hinv.
    + rewrite no_control_app, IH. reflexivity.
    + destruct ((fst (DecodeRune (String b rest)) =? 8232)%N
                || (fst (DecodeRune (String b rest)) =? 8233)%N) eqn:Hsep.
      * apply orb_true_iff in Hsep. rewrite !N.eqb_eq in Hsep.
        rewrite !no_control_app, IH.
        destruct Hsep as [-> | ->]; reflexivity.
      * rewrite no_control_app, IH.
        rewrite (rune_printable _ _ _ (JsonFacts.DecodeRune_valid b rest Hinv)).
        -- reflexivity.
        -- intros c t Hs. inversion Hs; subst. exact Hb.
Qed.

Lemma appendString_printable (s : string) : no_control (appendString s) = true.
Proof.
  unfold appendString. cbn [no_control].
  rewrite no_control_app, appendString_loop_printable. reflexivity.
Qed.

(** X18: in JSON mode a record with a string payload is exactly one line:
    whatever bytes the payload, the level, the timestamp and the call site
    hold (newlines included), the bytes written are an object without any
    control character followed by the single newline that ends the record. *)
Theorem json_record_one_line (env : Env) (wr : string -> error)
  (level payload : string) (g : Globals) :
  encoding g <> plainEncodingType ->
  exists obj : string,
    output env (Some wr) level (VString payload) g = [Wrote (obj ++ newline)%string]
    /\ no_control obj = true.
Proof.
  intros Henc.
  rewrite (output_json_value env wr level (appendString payload)
             (VString payload) g Henc eq_refl).
  unfold json_line.
  exists ("{" ++ appendString timestampKey ++ ":"
          ++ appendString (getTimestamp env g)
          ++ "," ++ appendString callerKey ++ ":" ++ appendString (call_site env)
          ++ "," ++ appendString contentKey ++ ":" ++ appendString payload
          ++ "," ++ appendString levelKey ++ ":" ++ appendString level
          ++ "}")%string.
  split.
  - rewrite !JsonFacts.app_assoc_string. reflexivity.
  - repeat (rewrite no_control_app || rewrite appendString_printable).
    reflexivity.
Qed.

Lemma json_record_one_line_witness :
  exists obj : string,
    output sample_env accepting levelError
      (VString ("disk full" ++ newline ++ "goroutine 1")) initial
    = [Wrote (obj ++ newline)%string]
    /\ no_control obj = true.
Proof.
  apply (json_record_one_line sample_env (fun _ => None) levelError
           ("disk full" ++ newline ++ "goroutine 1")%string initial).
  discriminate.
Defined.

End EncoderMore.
